(** * proxmox/session.go: the session, transport and encoding layer

    A shallow embedding of [proxmox/session.go] and the properties of its
    header validator, parameter encoder, response decoders and of the
    Session methods [NewRequest], [Do] and [Login].

    Conventions.  A Go [string] or [[]byte] is a [string] (a sequence of
    bytes); a rune is a [Z]; a Go map is a [gmap], and a [range] over a map
    is a loop over some enumeration of its entries, since Go leaves the
    order open; an [error] is its message, [None] standing for [nil]. *)

From Stdlib Require Import ZArith Ascii String List Lia Bool.
From Stdlib Require Import Floats.PrimFloat.
From stdpp Require Import base option list strings gmap fin_maps pretty.

Local Open Scope Z_scope.

Set Warnings "-register-all".

(** ** Bytes and strings *)

Definition error := string.

Definition byte (c : ascii) : Z := Z.of_N (N_of_ascii c).

(** [b] truncated to eight bits, as the conversion [byte(x)] does. *)
Definition chr (b : Z) : ascii := ascii_of_N (Z.to_N (Z.land b 0xFF)).

(** [s[i]]; every use below is guarded by a length test. *)
Definition at_ (s : string) (i : nat) : Z :=
  match String.get i s with
  | Some c => byte c
  | None => 0
  end.

Fixpoint bytes (s : string) : list Z :=
  match s with
  | EmptyString => []
  | String c t => byte c :: bytes t
  end.

(** [s[:n]] and [s[n:]], clipped to the length of [s]. *)
Fixpoint prefix_ (n : nat) (s : string) : string :=
  match n, s with
  | S n', String c t => String c (prefix_ n' t)
  | _, _ => EmptyString
  end.

Fixpoint suffix_ (n : nat) (s : string) : string :=
  match n, s with
  | S n', String _ t => suffix_ n' t
  | _, _ => s
  end.

Definition contains (s sub : string) : Prop :=
  ∃ pre post, s = pre +:+ sub +:+ post.

(** A decision procedure for [contains], for concrete strings. *)
Fixpoint starts_with (s sub : string) {struct sub} : bool :=
  match sub, s with
  | EmptyString, _ => true
  | String c sub', String d s' => bool_decide (c = d) && starts_with s' sub'
  | String _ _, EmptyString => false
  end.

Fixpoint containsb (s sub : string) : bool :=
  starts_with s sub
  || match s with
     | EmptyString => false
     | String _ s' => containsb s' sub
     end.

(** ** unicode/utf8 *)

Module utf8.

Definition RuneError : Z := 0xFFFD.
Definition RuneSelf : Z := 0x80.
Definition MaxRune : Z := 0x10FFFF.

Definition maskx : Z := 0x3F.
Definition mask2 : Z := 0x1F.
Definition mask3 : Z := 0x0F.
Definition mask4 : Z := 0x07.
Definition tx : Z := 0x80.
Definition t2 : Z := 0xC0.
Definition t3 : Z := 0xE0.
Definition t4 : Z := 0xF0.
Definition locb : Z := 0x80.
Definition hicb : Z := 0xBF.

Definition xx : Z := 0xF1.
Definition as_ : Z := 0xF0.

(** The table [first]: information about the first byte of an encoding. *)
Definition first (b : Z) : Z :=
  if b <? 0x80 then as_
  else if b <? 0xC2 then xx
  else if b <? 0xE0 then 0x02
  else if b =? 0xE0 then 0x13
  else if b <? 0xED then 0x03
  else if b =? 0xED then 0x23
  else if b <? 0xF0 then 0x03
  else if b =? 0xF0 then 0x34
  else if b <? 0xF4 then 0x04
  else if b =? 0xF4 then 0x44
  else xx.

(** The table [acceptRanges], a [[16]acceptRange] whose entries from 5 on
    are zero. *)
Definition acceptRanges (i : Z) : Z * Z :=
  match i with
  | 0 => (locb, hicb)
  | 1 => (0xA0, hicb)
  | 2 => (locb, 0x9F)
  | 3 => (0x90, hicb)
  | 4 => (locb, 0x8F)
  | _ => (0, 0)
  end.

(** [utf8.DecodeRuneInString]: the rune at the head of [s] and its width.
    The mask [rune(x) << 31 >> 31] of the source is all ones exactly when
    [x] is odd, which is the test on bit 0 here. *)
Definition DecodeRuneInString (s : string) : Z * nat :=
  let n := String.length s in
  if (n <? 1)%nat then (RuneError, 0%nat) else
  let s0 := at_ s 0 in
  let x := first s0 in
  if as_ <=? x then ((if Z.testbit x 0 then RuneError else s0), 1%nat) else
  let sz := Z.to_nat (Z.land x 7) in
  let accept := acceptRanges (Z.shiftr x 4) in
  if (n <? sz)%nat then (RuneError, 1%nat) else
  let s1 := at_ s 1 in
  if (s1 <? accept.1) || (accept.2 <? s1) then (RuneError, 1%nat) else
  if (sz <=? 2)%nat then
    (Z.lor (Z.shiftl (Z.land s0 mask2) 6) (Z.land s1 maskx), 2%nat) else
  let s2 := at_ s 2 in
  if (s2 <? locb) || (hicb <? s2) then (RuneError, 1%nat) else
  if (sz <=? 3)%nat then
    (Z.lor (Z.lor (Z.shiftl (Z.land s0 mask3) 12)
                  (Z.shiftl (Z.land s1 maskx) 6))
           (Z.land s2 maskx), 3%nat) else
  let s3 := at_ s 3 in
  if (s3 <? locb) || (hicb <? s3) then (RuneError, 1%nat) else
  (Z.lor (Z.lor (Z.lor (Z.shiftl (Z.land s0 mask4) 18)
                       (Z.shiftl (Z.land s1 maskx) 12))
                (Z.shiftl (Z.land s2 maskx) 6))
         (Z.land s3 maskx), 4%nat).

(** The runes of [s] in order, each with the bytes it was decoded from.
    Every step consumes at least one byte, so [String.length s] steps
    reach the end of [s] (lemma [segments_cover]). *)
Fixpoint segments_upto (steps : nat) (s : string) : list (Z * string) :=
  match steps with
  | O => []
  | S steps' =>
      match s with
      | EmptyString => []
      | _ =>
          let '(r, width) := DecodeRuneInString s in
          (r, prefix_ width s) :: segments_upto steps' (suffix_ width s)
      end
  end.

Definition segments (s : string) : list (Z * string) :=
  segments_upto (String.length s) s.

(** What [for _, r := range s] iterates over. *)
Definition runes (s : string) : list Z := (segments s).*1.

Definition surrogateMin : Z := 0xD800.
Definition surrogateMax : Z := 0xDFFF.

(** [utf8.AppendRune] onto the empty buffer. *)
Definition EncodeRune (r : Z) : string :=
  let three (r : Z) :=
    String (chr (Z.lor t3 (Z.land (Z.shiftr r 12) 0xFF)))
      (String (chr (Z.lor tx (Z.land (Z.shiftr r 6) maskx)))
         (String (chr (Z.lor tx (Z.land r maskx))) EmptyString)) in
  if (0 <=? r) && (r <=? 0x7F) then String (chr r) EmptyString
  else if (0 <=? r) && (r <=? 0x7FF) then
    String (chr (Z.lor t2 (Z.land (Z.shiftr r 6) 0xFF)))
      (String (chr (Z.lor tx (Z.land r maskx))) EmptyString)
  else if (r <? 0) || (MaxRune <? r)
          || ((surrogateMin <=? r) && (r <=? surrogateMax)) then
    three RuneError
  else if r <=? 0xFFFF then three r
  else
    String (chr (Z.lor t4 (Z.land (Z.shiftr r 18) 0xFF)))
      (String (chr (Z.lor tx (Z.land (Z.shiftr r 12) maskx)))
         (String (chr (Z.lor tx (Z.land (Z.shiftr r 6) maskx)))
            (String (chr (Z.lor tx (Z.land r maskx))) EmptyString))).

End utf8.

(** A segment is an ASCII byte standing for itself, or a rune of at least
    0x80 decoded from bytes of at least 0x80. *)
Definition seg_ok (seg : Z * string) : Prop :=
  (∃ c, seg.2 = String c EmptyString ∧ byte c < 0x80 ∧ seg.1 = byte c)
  ∨ (0x80 ≤ seg.1 ∧ seg.2 ≠ EmptyString ∧ Forall (λ b, 0x80 ≤ b) (bytes seg.2)).

(** A control character in the sense of RFC 7230: a code point in [0,31],
    or DEL. *)
Definition isControl (r : Z) : Prop := 0 ≤ r ≤ 31 ∨ r = 127.

(** The string [v] has a control character among its code points. *)
Definition hasControl (v : string) : Prop :=
  ∃ r, r ∈ utf8.runes v ∧ isControl r.

(** No byte of [s] is a control character. *)
Definition plainb (s : string) : bool :=
  forallb (λ b, (32 <=? b) && negb (b =? 127)) (bytes s).

Definition plain (s : string) : Prop :=
  Forall (λ b, 32 ≤ b ∧ b ≠ 127) (bytes s).

Fixpoint join (parts : list string) : string :=
  match parts with
  | [] => EmptyString
  | p :: rest => p +:+ join rest
  end.

(** ** strconv: quoting, as the verb [%q] of [fmt] does it *)

Module strconv.

Definition dquote : ascii := "034"%char.
Definition backslash : ascii := "\"%char.

Definition lowerhex (d : Z) : ascii :=
  match String.get (Z.to_nat d) "0123456789abcdef" with
  | Some c => c
  | None => "0"%char
  end.

Definition ValidRune (r : Z) : bool :=
  ((0 <=? r) && (r <? utf8.surrogateMin))
  || ((utf8.surrogateMax <? r) && (r <=? utf8.MaxRune)).

Fixpoint hexdigits (r : Z) (shifts : list Z) : string :=
  match shifts with
  | [] => EmptyString
  | s :: rest => String (lowerhex (Z.land (Z.shiftr r s) 0xF)) (hexdigits r rest)
  end.

Section Quote.

(** The range tables of [strconv.IsPrint] for runes above Latin-1 are
    data of the Go distribution; they are a parameter here. *)
Variable isPrintTable : Z → bool.

Definition IsPrint (r : Z) : bool :=
  if r <=? 0xFF then
    if (0x20 <=? r) && (r <=? 0x7E) then true
    else if (0xA1 <=? r) && (r <=? 0xFF) then negb (r =? 0xAD)
    else false
  else isPrintTable r.

(** [appendEscapedRune] for the double quote as [quote], with
    [ASCIIonly] and [graphicOnly] false. *)
Definition escapedRune (r : Z) : string :=
  if (r =? byte dquote) || (r =? byte backslash) then
    String backslash (String (chr r) EmptyString)
  else if IsPrint r then utf8.EncodeRune r
  else
    match r with
    | 7 => "\a"
    | 8 => "\b"
    | 12 => "\f"
    | 10 => "\n"
    | 13 => "\r"
    | 9 => "\t"
    | 11 => "\v"
    | _ =>
        if (r <? 32) || (r =? 0x7F) then "\x" +:+ hexdigits r [4; 0]
        else if negb (ValidRune r) then "\u" +:+ hexdigits 0xFFFD [12; 8; 4; 0]
        else if r <? 0x10000 then "\u" +:+ hexdigits r [12; 8; 4; 0]
        else "\U" +:+ hexdigits r [28; 24; 20; 16; 12; 8; 4; 0]
    end.

Definition quoteSegment (seg : Z * string) : string :=
  if (String.length seg.2 =? 1)%nat && (seg.1 =? utf8.RuneError) then
    "\x" +:+ hexdigits (at_ seg.2 0) [4; 0]
  else escapedRune seg.1.

Fixpoint quoteSegments (segs : list (Z * string)) : string :=
  match segs with
  | [] => String dquote EmptyString
  | seg :: rest => quoteSegment seg +:+ quoteSegments rest
  end.

(** [strconv.Quote]. *)
Definition Quote (s : string) : string :=
  String dquote (quoteSegments (utf8.segments s)).

End Quote.

End strconv.

(** ** net/http headers *)

(** [http.Header], and [url.Values] alike: [map[string][]string]. *)
Abbreviation Header := (gmap string (list string)).

(** An enumeration of a map as a [range] loop may visit it. *)
Definition ranges {A} (m : gmap string A) (order : list (string * A)) : Prop :=
  order ≡ₚ map_to_list m.

Section Validator.

Variable isPrintTable : Z → bool.

(** [fmt.Errorf] with the format of [validateHeader], whose verb [%q]
    quotes the key. *)
Definition invalidValueError (key : string) : error :=
  "value for key " +:+ strconv.Quote isPrintTable key
    +:+ " contains invalid characters".

(** The innermost loop of [validateHeader], over the runes of one value. *)
Fixpoint validateRunes (key : string) (rs : list Z) : option error :=
  match rs with
  | [] => None
  | r :: rs' =>
      if (r <? 32) || (r =? 127) then Some (invalidValueError key)
      else validateRunes key rs'
  end.

(** The loop over the values of one key. *)
Fixpoint validateValues (key : string) (values : list string) : option error :=
  match values with
  | [] => None
  | v :: values' =>
      match validateRunes key (utf8.runes v) with
      | Some err => Some err
      | None => validateValues key values'
      end
  end.

(** [validateHeader], visiting the entries of the header in [order]. *)
Fixpoint validateHeader (order : list (string * list string)) : option error :=
  match order with
  | [] => None
  | (key, values) :: order' =>
      match validateValues key values with
      | Some err => Some err
      | None => validateHeader order'
      end
  end.

(** Some value of the header [h] has a control character. *)
Definition offending (h : Header) : Prop :=
  ∃ key values v, h !! key = Some values ∧ v ∈ values ∧ hasControl v.

End Validator.

(** A key of printable ASCII with neither a double quote nor a backslash:
    [%q] prints it unchanged between double quotes. *)
Definition plainKey (key : string) : Prop :=
  Forall (λ b, 0x20 ≤ b ≤ 0x7E ∧ b ≠ byte strconv.dquote
               ∧ b ≠ byte strconv.backslash) (bytes key).


(** ** encoding/json *)

(** A JSON document as the scanner of [encoding/json] reads it: a number
    keeps its literal, an object its members in order. *)
Inductive JSON :=
| JNull
| JBool (b : bool)
| JNumber (literal : string)
| JString (s : string)
| JArray (elements : list JSON)
| JObject (members : list (string * JSON)).

(** [m[key]] in the [map[string]interface{}] decoded from an object: of
    members with the same key the last one stays. *)
Fixpoint member (key : string) (members : list (string * JSON)) : option JSON :=
  match members with
  | [] => None
  | (k, v) :: rest =>
      match member key rest with
      | Some v' => Some v'
      | None => if String.eqb k key then Some v else None
      end
  end.

(** [x == nil] for an [interface{}] read from such a map: the key is
    missing or its value is [null]. *)
Definition isNil (x : option JSON) : bool :=
  match x with
  | None | Some JNull => true
  | Some _ => false
  end.

(** The name of the dynamic type in the message of a failed type assertion. *)
Definition dynamicType (x : option JSON) : string :=
  match x with
  | None | Some JNull => "nil"
  | Some (JBool _) => "bool"
  | Some (JNumber _) => "float64"
  | Some (JString _) => "string"
  | Some (JArray _) => "[]interface {}"
  | Some (JObject _) => "map[string]interface {}"
  end.

(** [json.RawMessage]: the text of one value of a document, represented by
    that value (scanning the text again yields it); [None] is the empty
    slice. *)
Definition RawMessage := option JSON.

(** ** The process: the Debug flag, header maps, the log and the network *)

Abbreviation loc := nat.

(** What a transport sees of a request. *)
Record Wire := {
  wMethod : string;
  wURL : string;
  wHeader : Header;
  wBody : option string;
}.

(** [http.Request]; the field [Header] refers to a map that other holders
    of the reference see change. *)
Record http_Request := {
  Method : string;
  URL : string;
  ReqHeader : loc;
  ReqBody : option string;
}.

(** A function result that is a value or a panic. *)
Inductive Outcome (A : Type) :=
| Returns (a : A)
| Panics (msg : string).
Arguments Returns {A} a.
Arguments Panics {A} msg.

Section Runtime.

(** The network with the servers behind it, and a connection on which a
    response body arrives. *)
Context {World Conn : Type}.

(** An [io.ReadCloser] as [Do] meets it: a body that is still to be
    received, or [io.NopCloser(bytes.NewReader(b))] with what is left to
    read of [b]. *)
Inductive ReadCloser :=
| connBody (c : Conn)
| bufferedBody (unread : string).

(** [http.Response]. *)
Record http_Response := {
  Status : string;
  StatusCode : Z;
  Body : option ReadCloser;
}.

Definition withBody (resp : http_Response) (b : ReadCloser) : http_Response :=
  {| Status := Status resp; StatusCode := StatusCode resp; Body := Some b |}.

(** An [http.RoundTripper] of the Go distribution or of the caller. *)
Definition RoundTripFunc : Type :=
  Wire → World → (http_Response + error) * World.

(** The state of the process.  [sent] is a record of what was handed to
    a transport of the network stack, and of the value of [Debug] then;
    no code reads it. *)
Record Proc := {
  Debug : bool;
  heap : gmap loc Header;
  logged : list string;
  net : World;
  sent : list (bool * Wire);
}.

Definition setDebug (b : bool) (st : Proc) : Proc :=
  {| Debug := b; heap := heap st; logged := logged st; net := net st;
     sent := sent st |}.

Definition setHeap (h : gmap loc Header) (st : Proc) : Proc :=
  {| Debug := Debug st; heap := h; logged := logged st; net := net st;
     sent := sent st |}.

Definition setNet (w : World) (st : Proc) : Proc :=
  {| Debug := Debug st; heap := heap st; logged := logged st; net := w;
     sent := sent st |}.

(** [log.Printf]. *)
Definition log_Printf (line : string) (st : Proc) : Proc :=
  {| Debug := Debug st; heap := heap st; logged := logged st ++ [line];
     net := net st; sent := sent st |}.

Definition recordSent (w : Wire) (st : Proc) : Proc :=
  {| Debug := Debug st; heap := heap st; logged := logged st; net := net st;
     sent := sent st ++ [(Debug st, w)] |}.

(** The map a header reference points to.  A reference always points to a
    map: the nil map, which no Session made by [NewSession] and no request
    made by [http.NewRequest] has, is left out. *)
Definition headerAt (l : loc) (st : Proc) : Header := heap st !!! l.

(** [h[key] = values] through the reference [l]. *)
Definition setHeader (l : loc) (key : string) (values : list string)
    (st : Proc) : Proc :=
  setHeap (<[l := <[key := values]> (headerAt l st)]> (heap st)) st.

(** A new map, as [make(http.Header)] or [http.Header{}] gives. *)
Definition newHeader (st : Proc) : loc * Proc :=
  let l := fresh (dom (heap st)) in
  (l, setHeap (<[l := ∅]> (heap st)) st).

Definition wireOf (req : http_Request) (st : Proc) : Wire :=
  {| wMethod := Method req; wURL := URL req;
     wHeader := headerAt (ReqHeader req) st; wBody := ReqBody req |}.

(** ** The transport *)

(** The order in which a [range] loop visits a map. *)
Variable range : ∀ A : Type, gmap string A → list (string * A).

Variable isPrintTable : Z → bool.

(** A [secureTransport] around [underlying], or the transport of a
    client that the caller supplies. *)
Inductive RoundTripper :=
| secureTransport (underlying : RoundTripFunc)
| otherTransport (f : RoundTripFunc).

(** A call of a transport of the network stack. *)
Definition dispatch (f : RoundTripFunc) (w : Wire) (st : Proc)
    : (http_Response + error) * Proc :=
  let '(result, net') := f w (net st) in
  (result, setNet net' (recordSent w st)).

(** [secureTransport.RoundTrip], and the [RoundTrip] of another
    transport. *)
Definition RoundTrip (t : RoundTripper) (w : Wire) (st : Proc)
    : (http_Response + error) * Proc :=
  match t with
  | secureTransport underlying =>
      match validateHeader isPrintTable (range _ (wHeader w)) with
      | Some err => (inr ("invalid header: " +:+ err), st)
      | None => dispatch underlying w st
      end
  | otherTransport f => dispatch f w st
  end.

(** [http.Client]. *)
Record Client := { Transport : RoundTripper }.

(** The [*url.Error] in which [http.Client.Do] wraps a failure: method,
    URL and the error of the transport. *)
Variable urlError : string → string → error → error.

(** [http.Client.Do] for a client without cookie jar, on a request that
    is answered without redirection: one round trip.  A response comes
    with its body, which [net/http] guarantees not to be nil. *)
Definition Client_Do (c : Client) (req : http_Request) (st : Proc)
    : (http_Response * ReadCloser + error) * Proc :=
  let '(result, st') := RoundTrip (Transport c) (wireOf req st) st in
  match result with
  | inr err => (inr (urlError (Method req) (URL req) err), st')
  | inl resp =>
      match Body resp with
      | None =>
          (inr (urlError (Method req) (URL req)
                  "http: RoundTripper implementation returned a *Response with a nil Body"),
           st')
      | Some body => (inl (resp, body), st')
      end
  end.

(** What arrives on a connection when it is read to its end, and the
    closing of a connection. *)
Variable recv : Conn → World → (string + error) * World.
Variable closeConn : Conn → World → World.

(** [io.ReadAll]: the result, and the reader afterwards. *)
Definition io_ReadAll (r : ReadCloser) (st : Proc)
    : (string + error) * ReadCloser * Proc :=
  match r with
  | connBody c =>
      let '(result, net') := recv c (net st) in
      (result, connBody c, setNet net' st)
  | bufferedBody unread => (inl unread, bufferedBody EmptyString, st)
  end.

(** [Close] of a body. *)
Definition Close (r : ReadCloser) (st : Proc) : Proc :=
  match r with
  | connBody c => setNet (closeConn c (net st)) st
  | bufferedBody _ => st
  end.

(** ** Request parameters *)

(** A value of type [interface{}] in a parameter map: the cases the type
    switch and the verb [%v] tell apart, and [other_any] for the
    remaining types, printed by [Sprint]. *)
Context {Opaque : Type}.
Variable Sprint : Opaque → string.

Inductive any :=
| nil_any
| bool_any (b : bool)
| string_any (s : string)
| int_any (n : Z)
| other_any (x : Opaque).

(** [fmt.Sprintf] with the format [%v]. *)
Definition Sprintf_v (x : any) : string :=
  match x with
  | nil_any => "<nil>"
  | bool_any b => if b then "true" else "false"
  | string_any s => s
  | int_any n => pretty n
  | other_any x => Sprint x
  end.

(** Modelled from the spec: [inArray], a helper of the package that is
    defined in another file of it; the spec speaks of a key that is
    explicitly allow-listed, which is membership in the list. *)
Definition inArray (arr : list string) (str : string) : bool :=
  existsb (String.eqb str) arr.

(** The body of the loop of [ParamsToValuesWithAllEmpty] for one entry;
    [vals.Set(k, v)] is [vals[k] = []string{v}]. *)
Definition encodeParam (allowedEmpty : list string) (allowEmpty : bool)
    (vals : Header) (entry : string * any) : Header :=
  let '(k, intrV) := entry in
  let v :=
    match intrV with
    | bool_any b => if b then "1" else "0"
    | _ => Sprintf_v intrV
    end in
  if allowEmpty then <[k := [v]]> vals
  else if negb (String.eqb v EmptyString) || inArray allowedEmpty k then
    <[k := [v]]> vals
  else vals.

(** The loop, over the entries in the order of the [range]. *)
Definition encodeParams (order : list (string * any))
    (allowedEmpty : list string) (allowEmpty : bool) : Header :=
  foldl (encodeParam allowedEmpty allowEmpty) ∅ order.

Definition ParamsToValuesWithAllEmpty (params : gmap string any)
    (allowedEmpty : list string) (allowEmpty : bool) : Header :=
  encodeParams (range _ params) allowedEmpty allowEmpty.

Definition ParamsToValuesWithEmpty (params : gmap string any)
    (allowedEmpty : list string) : Header :=
  ParamsToValuesWithAllEmpty params allowedEmpty false.

Definition ParamsToValues (params : gmap string any) : Header :=
  ParamsToValuesWithEmpty params [].

(** [url.Values.Encode]. *)
Variable Values_Encode : Header → string.

Definition ParamsToBody (params : gmap string any) : string :=
  Values_Encode (ParamsToValuesWithEmpty params []).

Definition ParamsToBodyWithEmpty (params : gmap string any)
    (allowedEmpty : list string) : string :=
  Values_Encode (ParamsToValuesWithEmpty params allowedEmpty).

Definition ParamsToBodyWithAllEmpty (params : gmap string any) : string :=
  Values_Encode (ParamsToValuesWithAllEmpty params [] true).

(** The encoder in the words of the spec: the encoding of one value, the
    keys that are kept, and the form made of them. *)
Definition specEncode (x : any) : string :=
  match x with
  | bool_any true => "1"
  | bool_any false => "0"
  | _ => Sprintf_v x
  end.

Definition specKept (allowedEmpty : list string) (allowEmpty : bool)
    (k : string) (x : any) : Prop :=
  allowEmpty = true ∨ specEncode x ≠ EmptyString ∨ k ∈ allowedEmpty.

Definition specEncoder (params : gmap string any)
    (allowedEmpty : list string) (allowEmpty : bool) : Header :=
  (λ x, [specEncode x])
    <$> filter (λ kx, specKept allowedEmpty allowEmpty kx.1 kx.2) params.

(** ** Response decoding *)

(** The scanner of [encoding/json]: the document that a text is, or the
    syntax error; [typeError] is the message of an [UnmarshalTypeError]
    for a value and the Go type it does not fit. *)
Variable json_parse : string → JSON + error.
Variable typeError : JSON → string → error.

(** [json.Unmarshal] of [data] into a destination of type [T], given how
    a document is stored into such a destination. *)
Definition json_Unmarshal {T : Type} (store : JSON → T → T * option error)
    (data : string) (v : T) : T * option error :=
  match json_parse data with
  | inr err => (v, Some err)
  | inl doc => store doc v
  end.

(** [decodeResponse]: the destination, the error and the response
    afterwards, whose body has been read. *)
Definition decodeResponse {T : Type} (store : JSON → T → T * option error)
    (resp : http_Response) (v : T) (st : Proc)
    : T * option error * http_Response * Proc :=
  match Body resp with
  | None => (v, None, resp, st)
  | Some body =>
      let '(rbody, body', st') := io_ReadAll body st in
      let resp' := withBody resp body' in
      match rbody with
      | inr err => (v, Some ("error reading response body: " +:+ err), resp', st')
      | inl rbody =>
          let '(v', err) := json_Unmarshal store rbody v in
          (v', err, resp', st')
      end
  end.

(** Storing a document into a [map[string]interface{}]; [None] is the
    nil map.  Members already in the map stay unless the object has
    their key. *)
Definition storeMap (doc : JSON) (m : option (list (string * JSON)))
    : option (list (string * JSON)) * option error :=
  match doc with
  | JNull => (None, None)
  | JObject members => (Some (default [] m ++ members), None)
  | _ => (m, Some (typeError doc "map[string]interface {}"))
  end.

Definition ResponseJSON (resp : http_Response) (st : Proc)
    : option (list (string * JSON)) * option error * http_Response * Proc :=
  decodeResponse storeMap resp None st.

(** A key of an object names a field of a struct when it equals the name
    in the tag of the field, or matches it under the case folding of the
    decoder. *)
Variable equalFold : string → string → bool.

Definition namesField (name key : string) : bool :=
  String.eqb name key || equalFold name key.

(** The anonymous struct of [TypedResponse], that is its field
    [Data.Result], and the storing of a document into it: members are
    taken in order, a member that does not fit is skipped and the first
    such mismatch is the error. *)
Definition storeData (result : RawMessage) (members : list (string * JSON))
    : RawMessage :=
  foldl (λ result kv, if namesField "result" kv.1 then Some kv.2 else result)
        result members.

Definition storeIntermediate (doc : JSON) (result : RawMessage)
    : RawMessage * option error :=
  match doc with
  | JNull => (result, None)
  | JObject members =>
      foldl
        (λ acc kv,
           if namesField "data" kv.1 then
             match kv.2 with
             | JNull => acc
             | JObject inner => (storeData acc.1 inner, acc.2)
             | other =>
                 (acc.1,
                  match acc.2 with
                  | Some err => Some err
                  | None =>
                      Some (typeError other
                              "struct { Result json.RawMessage }")
                  end)
             end
           else acc)
        (result, None) members
  | _ => (result, Some (typeError doc "struct { Data struct { Result json.RawMessage } }"))
  end.

(** [json.Unmarshal] of a [RawMessage]: of the empty slice it is a syntax
    error. *)
Definition json_Unmarshal_raw {T : Type} (store : JSON → T → T * option error)
    (data : RawMessage) (v : T) : T * option error :=
  match data with
  | None => (v, Some "unexpected end of JSON input")
  | Some doc => store doc v
  end.

(** [TypedResponse] for a destination of type [T]. *)
Definition TypedResponse {T : Type} (store : JSON → T → T * option error)
    (resp : http_Response) (v : T) (st : Proc)
    : T * option error * http_Response * Proc :=
  let '(intermediate, err, resp', st') :=
    decodeResponse storeIntermediate resp None st in
  match err with
  | Some err => (v, Some ("error reading response envelope: " +:+ err), resp', st')
  | None =>
      let '(v', err) := json_Unmarshal_raw store intermediate v in
      match err with
      | Some err => (v', Some ("error unmarshalling result " +:+ err), resp', st')
      | None => (v', None, resp', st')
      end
  end.

(** ** The Session *)

Record Session := {
  httpClient : Client;
  ApiUrl : string;
  AuthTicket : string;
  CsrfToken : string;
  AuthToken : string;
  Headers : loc;
}.

Definition setAuthToken (token : string) (s : Session) : Session :=
  {| httpClient := httpClient s; ApiUrl := ApiUrl s;
     AuthTicket := AuthTicket s; CsrfToken := CsrfToken s;
     AuthToken := token; Headers := Headers s |}.

Definition setAuthTicket (ticket : string) (s : Session) : Session :=
  {| httpClient := httpClient s; ApiUrl := ApiUrl s;
     AuthTicket := ticket; CsrfToken := CsrfToken s;
     AuthToken := AuthToken s; Headers := Headers s |}.

Definition setCsrfToken (token : string) (s : Session) : Session :=
  {| httpClient := httpClient s; ApiUrl := ApiUrl s;
     AuthTicket := AuthTicket s; CsrfToken := token;
     AuthToken := AuthToken s; Headers := Headers s |}.

(** The transport that [net/http] makes of an [http.Transport] value;
    [NewSession] sets its TLS configuration and its proxy. *)
Context {TLSConfig ProxyURL : Type}.
Variable http_Transport : TLSConfig → option ProxyURL → RoundTripFunc.

(** [url.ParseRequestURI], the field [Host] of its result, and the error
    of [net.SplitHostPort]. *)
Variable url_ParseRequestURI : string → ProxyURL + error.
Variable Host : ProxyURL → string.
Variable net_SplitHostPort : string → option error.

Definition NewSession (apiUrl : string) (hclient : option Client)
    (proxyString : string) (tls : TLSConfig) (st : Proc)
    : (Session + error) * Proc :=
  let hclient' : Client + error :=
    match hclient with
    | Some c => inl c
    | None =>
        if String.eqb proxyString EmptyString then
          inl {| Transport := secureTransport (http_Transport tls None) |}
        else
          match url_ParseRequestURI proxyString with
          | inr err => inr err
          | inl proxyURL =>
              match net_SplitHostPort (Host proxyURL) with
              | Some err => inr err
              | None =>
                  inl {| Transport :=
                           secureTransport (http_Transport tls (Some proxyURL)) |}
              end
          end
    end in
  match hclient' with
  | inr err => (inr err, st)
  | inl c =>
      let '(headers, st') := newHeader st in
      (inl {| httpClient := c; ApiUrl := apiUrl; AuthTicket := EmptyString;
              CsrfToken := EmptyString; AuthToken := EmptyString;
              Headers := headers |}, st')
  end.

Definition SetAPIToken (s : Session) (userID token : string) : Session :=
  setAuthToken (userID +:+ "=" +:+ token) s.

(** The failures of [http.NewRequest]: a method that is no token, a URL
    that does not parse. *)
Variable requestLineError : string → string → option error.

(** [http.NewRequest]; the request has a header map of its own. *)
Definition http_NewRequest (method url : string) (body : option string)
    (st : Proc) : (http_Request + error) * Proc :=
  let method := if String.eqb method EmptyString then "GET" else method in
  match requestLineError method url with
  | Some err => (inr err, st)
  | None =>
      let '(h, st') := newHeader st in
      (inl {| Method := method; URL := url; ReqHeader := h; ReqBody := body |},
       st')
  end.

Definition withHeader (req : http_Request) (h : loc) : http_Request :=
  {| Method := Method req; URL := URL req; ReqHeader := h;
     ReqBody := ReqBody req |}.

(** [NewRequest]; [headers] is the map the caller's [*http.Header] points
    to, which the request shares from then on. *)
Definition NewRequest (s : Session) (method url : string)
    (headers : option loc) (body : option string) (st : Proc)
    : (http_Request + error) * Proc :=
  let '(result, st) := http_NewRequest method url body st in
  match result with
  | inr err => (inr err, st)
  | inl req =>
      let req :=
        match headers with
        | Some h => withHeader req h
        | None => req
        end in
      if negb (String.eqb (AuthToken s) EmptyString) then
        (inl req,
         setHeader (ReqHeader req) "Authorization"
           ["PVEAPIToken=" +:+ AuthToken s] st)
      else if negb (String.eqb (AuthTicket s) EmptyString) then
        (inl req,
         setHeader (ReqHeader req) "CSRFPreventionToken" [CsrfToken s]
           (setHeader (ReqHeader req) "Authorization"
              ["PVEAuthCookie=" +:+ AuthTicket s] st))
      else (inl req, st)
  end.

(** The headers [NewRequest] leaves in the map of a request that had the
    headers [h]. *)
Definition attachAuth (s : Session) (h : Header) : Header :=
  if negb (String.eqb (AuthToken s) EmptyString) then
    <["Authorization" := ["PVEAPIToken=" +:+ AuthToken s]]> h
  else if negb (String.eqb (AuthTicket s) EmptyString) then
    <["CSRFPreventionToken" := [CsrfToken s]]>
      (<["Authorization" := ["PVEAuthCookie=" +:+ AuthTicket s]]> h)
  else h.

(** [httputil.DumpRequestOut] and [httputil.DumpResponse] with the body;
    the latter leaves a buffered body as it was. *)
Variable DumpRequestOut : Wire → string.
Variable DumpResponse : http_Response → string.

(** [fmt.Errorf] with a format and no operand. *)
Variable fmt_Errorf : string → error.

Definition nl : string := String "010"%char EmptyString.

(** The loop of [Do] that adds the session headers to the request. *)
Definition addHeaders (order : list (string * list string)) (dst : loc)
    (st : Proc) : Proc :=
  foldl (λ st kv, setHeader dst kv.1 kv.2 st) st order.

(** [Do]: the response and the error. *)
Definition Do (s : Session) (req : http_Request) (st : Proc)
    : option http_Response * option error * Proc :=
  let st := addHeaders (range _ (headerAt (Headers s) st)) (ReqHeader req) st in
  let st :=
    if Debug st then
      log_Printf (">>>>>>>>>> REQUEST:" +:+ nl +:+ DumpRequestOut (wireOf req st)) st
    else st in
  let '(result, st) := Client_Do (httpClient s) req st in
  match result with
  | inr err => (None, Some err, st)
  | inl (resp, body) =>
      let '(respBody, body', st) := io_ReadAll body st in
      match respBody with
      | inr err => (None, Some err, st)
      | inl respBody =>
          let st := Close body' st in
          let resp := withBody resp (bufferedBody respBody) in
          let st :=
            if Debug st then
              log_Printf ("<<<<<<<<<< RESULT:" +:+ nl +:+ DumpResponse resp) st
            else st in
          if (StatusCode resp <? 200) || (299 <? StatusCode resp) then
            (Some resp, Some (fmt_Errorf (Status resp)), st)
          else (Some resp, None, st)
      end
  end.

(** [Request]. *)
Definition Request (s : Session) (method url : string)
    (params : option Header) (headers : option loc) (body : option string)
    (st : Proc) : option http_Response * option error * Proc :=
  let url := ApiUrl s +:+ url in
  let url :=
    match params with
    | Some params => url +:+ "?" +:+ Values_Encode params
    | None => url
    end in
  let '(result, st) := NewRequest s method url headers body st in
  match result with
  | inr err => (None, Some err, st)
  | inl req =>
      let st := setHeader (ReqHeader req) "Accept" ["application/json"] st in
      Do s req st
  end.

(** [Post]. *)
Definition Post (s : Session) (url : string) (params : option Header)
    (headers : option loc) (body : option string) (st : Proc)
    : option http_Response * option error * Proc :=
  let '(headers, st) :=
    match headers with
    | Some h => (h, st)
    | None =>
        let '(h, st) := newHeader st in
        (h, setHeader h "Content-Type" ["application/x-www-form-urlencoded"] st)
    end in
  Request s "POST" url params (Some headers) body st.

(** [strconv.ParseFloat] on the literal of a number, as the decoding into
    [interface{}] applies it. *)
Variable ParseFloat : string → float.

(** [x == 1.0] for an [interface{}] read from a decoded map. *)
Definition isOne (x : option JSON) : bool :=
  match x with
  | Some (JNumber literal) => PrimFloat.eqb (ParseFloat literal) 1%float
  | _ => false
  end.

Definition conversionPanic {A} (x : option JSON) (want : string) : Outcome A :=
  Panics ("interface conversion: interface {} is " +:+ dynamicType x
            +:+ ", not " +:+ want).

(** The first lines of [Login]: the form with the credentials. *)
Definition loginBody (username password otp : string) : string :=
  let reqUser : gmap string any :=
    {[ "username" := string_any username; "password" := string_any password ]} in
  let reqUser :=
    if negb (String.eqb otp EmptyString) then <["otp" := string_any otp]> reqUser
    else reqUser in
  ParamsToBody reqUser.

(** [Login]: the error it returns, or the panic it ends in, and the
    Session afterwards. *)
Definition Login (s : Session) (username password otp : string) (st : Proc)
    : Outcome (option error) * Session * Proc :=
  let reqbody := loginBody username password otp in
  let olddebug := Debug st in
  let st := setDebug false st in
  let '(resp, err, st) :=
    Post s "/access/ticket" None (Some (Headers s)) (Some reqbody) st in
  let st := setDebug olddebug st in
  match err, resp with
  | Some err, _ => (Returns (Some err), s, st)
  | None, None => (Returns (Some "Login error reading response"), s, st)
  | None, Some resp =>
      let dr := DumpResponse resp in
      let '(jbody, err, _, st) := ResponseJSON resp st in
      match err, jbody with
      | Some err, _ => (Returns (Some err), s, st)
      | None, None =>
          (Returns (Some ("invalid login response:" +:+ nl +:+ "-----" +:+ nl
                            +:+ dr +:+ nl +:+ "-----")), s, st)
      | None, Some jbody =>
          if isNil (member "data" jbody) then
            (Returns (Some ("invalid login response:" +:+ nl +:+ "-----" +:+ nl
                              +:+ dr +:+ nl +:+ "-----")), s, st)
          else
            match member "data" jbody with
            | Some (JObject dat) =>
                if isOne (member "NeedTFA" dat) then
                  (Returns (Some "missing TFA code"), s, st)
                else
                  match member "ticket" dat with
                  | Some (JString ticket) =>
                      let s := setAuthTicket ticket s in
                      match member "CSRFPreventionToken" dat with
                      | Some (JString token) =>
                          (Returns None, setCsrfToken token s, st)
                      | x => (conversionPanic x "string", s, st)
                      end
                  | x => (conversionPanic x "string", s, st)
                  end
            | x => (conversionPanic x "map[string]interface {}", s, st)
            end
      end
  end.

(** ** The verbs *)




(** [Put]. *)
Definition Put (s : Session) (url : string) (params : option Header)
    (headers : option loc) (body : option string) (st : Proc)
    : option http_Response * option error * Proc :=
  let '(headers, st) :=
    match headers with
    | Some h => (h, st)
    | None =>
        let '(h, st) := newHeader st in
        (h, setHeader h "Content-Type" ["application/x-www-form-urlencoded"] st)
    end in
  Request s "PUT" url params (Some headers) body st.

(** The panic of a method call through a nil pointer or a nil interface. *)
Definition nilDereference : string :=
  "runtime error: invalid memory address or nil pointer dereference".

(** [RequestJSON] for a body of type [B], [None] being the nil interface,
    and a destination of type [T]; [marshal] is [json.Marshal] on [B] and
    [store] the storing of a document into [T].  The result is the
    destination, the response and the error, or a panic.  The slice
    [bodyjson] stays nil without a body, and [Request] is given the address
    of the slice, which is never nil: it sends what the slice holds. *)
Definition RequestJSON {B T : Type} (marshal : B → string + error)
    (store : JSON → T → T * option error) (s : Session) (method url : string)
    (params : option Header) (headers : option loc) (body : option B)
    (responseContainer : T) (st : Proc)
    : Outcome (T * option http_Response * option error) * Proc :=
  let bodyjson : option string + error :=
    match body with
    | None => inl None
    | Some b =>
        match marshal b with
        | inl text => inl (Some text)
        | inr err => inr err
        end
    end in
  match bodyjson with
  | inr err => (Returns (responseContainer, None, Some err), st)
  | inl bodyjson =>
      let '(resp, err, st) :=
        Request s method url params headers
          (Some (default EmptyString bodyjson)) st in
      match err with
      | Some err => (Returns (responseContainer, resp, Some err), st)
      | None =>
          match resp with
          | None => (Panics nilDereference, st)
          | Some resp =>
              match Body resp with
              | None => (Panics nilDereference, st)
              | Some body =>
                  let '(rbody, body', st) := io_ReadAll body st in
                  let resp := withBody resp body' in
                  match rbody with
                  | inr _ =>
                      (Returns (responseContainer, Some resp,
                                Some "error reading response body"), st)
                  | inl rbody =>
                      let '(v, err) :=
                        json_Unmarshal store rbody responseContainer in
                      (Returns (v, Some resp, err), st)
                  end
              end
          end
      end
  end.

Definition GetJSON {T : Type} (store : JSON → T → T * option error)
    (s : Session) (url : string) (params : option Header)
    (headers : option loc) (responseContainer : T) (st : Proc)
    : Outcome (T * option http_Response * option error) * Proc :=
  RequestJSON (λ b : Empty_set, match b with end) store s "GET" url params
    headers None responseContainer st.

Definition PostJSON {B T : Type} (marshal : B → string + error)
    (store : JSON → T → T * option error) (s : Session) (url : string)
    (params : option Header) (headers : option loc) (body : option B)
    (responseContainer : T) (st : Proc)
    : Outcome (T * option http_Response * option error) * Proc :=
  RequestJSON marshal store s "POST" url params headers body
    responseContainer st.

End Runtime.

(** ** What a run leaves behind *)

Section Observations.

Context {World : Type}.

(** From [st] to [st'] the Debug flag keeps its value, nothing is logged
    unless the flag is set, and what is sent is sent under that value. *)
Definition follows (st st' : @Proc World) : Prop :=
  Debug st' = Debug st
  ∧ (Debug st = false → logged st' = logged st)
  ∧ ∃ new, sent st' = sent st ++ new ∧ Forall (λ d, d.1 = Debug st) new.

(** From [st] to [st'] only the network has changed. *)
Definition sameButNet (st st' : @Proc World) : Prop :=
  Debug st' = Debug st ∧ heap st' = heap st ∧ logged st' = logged st
  ∧ sent st' = sent st.

(** From [st] to [st'] the header maps are the same, and what is sent is
    the request [w]. *)
Definition sendsOnly (w : Wire) (st st' : @Proc World) : Prop :=
  heap st' = heap st
  ∧ ∃ new, sent st' = sent st ++ new ∧ Forall (λ d, d.2 = w) new.

(** The headers of a request after [Do] has added those of the Session:
    for a key of the Session its values there, for any other key the values
    the request had. *)
Definition sessionFirst (session request : Header) (key : string)
    : option (list string) :=
  match session !! key with
  | Some values => Some values
  | None => request !! key
  end.

End Observations.

(** ** The request that Request builds *)

Section RequestShape.

Context {World Conn : Type}.

(** The method [http.NewRequest] gives a request: [GET] for the empty
    string. *)
Definition methodOf (method : string) : string :=
  if String.eqb method EmptyString then "GET" else method.

(** The URL [Request] asks for. *)
Definition targetOf (Values_Encode : Header → string) (s : @Session World Conn)
    (url : string) (params : option Header) : string :=
  let url := ApiUrl s +:+ url in
  match params with
  | Some params => url +:+ "?" +:+ Values_Encode params
  | None => url
  end.

(** The header map of the request [NewRequest] builds: the map the caller
    gives, or the new map of [http.NewRequest]; and the headers it has
    before [NewRequest] attaches any. *)
Definition headerRef (headers : option loc) (st : @Proc World) : loc :=
  match headers with
  | Some h => h
  | None => fresh (dom (heap st))
  end.

Definition givenHeaders (headers : option loc) (st : @Proc World) : Header :=
  match headers with
  | Some h => headerAt h st
  | None => ∅
  end.

(** The headers of the request that [Request] hands to [Do]. *)
Definition builtHeaders (s : @Session World Conn) (headers : option loc)
    (st : @Proc World) : Header :=
  <["Accept" := ["application/json"]]> (attachAuth s (givenHeaders headers st)).

(** The header [Post] and [Put] make when they are given none. *)
Definition formType : Header :=
  {[ "Content-Type" := ["application/x-www-form-urlencoded"] ]}.

(** The text [RequestJSON] sends for a body: nothing for the nil
    interface, else what [json.Marshal] makes of it. *)
Definition marshalled {B : Type} (marshal : B → string + error)
    (body : option B) : string + error :=
  match body with
  | None => inl EmptyString
  | Some b => marshal b
  end.

(** The form of a login: a field is in it when its value is not empty. *)
Definition formField (key value : string) : Header :=
  if String.eqb value EmptyString then ∅ else {[ key := [value] ]}.

Definition loginForm (username password otp : string) : Header :=
  formField "username" username ∪ formField "password" password
  ∪ formField "otp" otp.

End RequestShape.

(** ** Sample inputs *)

(** A table that takes every rune above Latin-1 as printable. *)
Definition printAll (r : Z) : bool := true.

(** A header whose value has a line feed in it. *)
Definition sampleBad : Header := {[ "X-Token" := ["ab" +:+ nl +:+ "cd"] ]}.

(** A header whose key has a double quote in it, and whose value is a line
    feed. *)
Definition quotedKey : string := "a" +:+ String strconv.dquote "b".
Definition sampleQuoted : Header := {[ quotedKey := [nl] ]}.

(** A header whose key is a control character, and whose value is plain. *)
Definition sampleControlKey : Header := {[ nl := ["plain"] ]}.

(** A network that counts the round trips made on it and answers every
    request with the given status and body; a connection is the text that
    arrives on it. *)
Definition sampleServer (status : string) (code : Z) (body : string)
    : @RoundTripFunc nat string :=
  λ _ n, (inl {| Status := status; StatusCode := code;
                 Body := Some (connBody body) |}, S n).

Definition sampleRecv (c : string) (n : nat) : (string + error) * nat :=
  (inl c, n).

Definition sampleClose (c : string) (n : nat) : nat := n.

Definition sampleProc : @Proc nat :=
  {| Debug := false; heap := ∅; logged := []; net := 0%nat; sent := [] |}.

(** The process in which the map at reference 0 holds a CSRF header. *)
Definition staleProc : @Proc nat :=
  {| Debug := false;
     heap := {[ 0%nat := {[ "CSRFPreventionToken" := ["stale"] ]} ]};
     logged := []; net := 0%nat; sent := [] |}.

(** A Session on which both the token and the ticket are set. *)
Definition sampleSession (server : @RoundTripFunc nat string)
    : @Session nat string :=
  {| httpClient := {| Transport := otherTransport server |};
     ApiUrl := "https://pve:8006/api2/json";
     AuthTicket := "PVE:root@pam:TICKET"; CsrfToken := "CSRF";
     AuthToken := "root@pam!id=uuid"; Headers := 1%nat |}.

Definition anyRequestLine (method url : string) : option error := None.

(** A [range] that visits a map in the order of its list of entries. *)
Definition sampleRange (A : Type) (m : gmap string A) : list (string * A) :=
  map_to_list m.

Definition sampleUrlError (method url : string) (err : error) : error :=
  method +:+ " " +:+ url +:+ ": " +:+ err.

Definition sampleDump {A : Type} (x : A) : string := "(dump)".

(** The texts of two response bodies, written with their double quotes:
    an envelope with the result [{x:1}], and an envelope whose [data] is
    empty; and a scanner that knows these texts. *)
Definition quoted (s : string) : string :=
  String strconv.dquote (s +:+ String strconv.dquote EmptyString).

Definition resultText : string :=
  "{" +:+ quoted "data" +:+ ":{" +:+ quoted "result" +:+ ":{"
      +:+ quoted "x" +:+ ":1}}}".

Definition emptyDataText : string := "{" +:+ quoted "data" +:+ ":{}}".

(** The text of the answer to a login: a ticket [T] and a CSRF token [C]. *)
Definition loginText : string :=
  "{" +:+ quoted "data" +:+ ":{" +:+ quoted "ticket" +:+ ":" +:+ quoted "T"
      +:+ "," +:+ quoted "CSRFPreventionToken" +:+ ":" +:+ quoted "C" +:+ "}}".

Definition sampleParse (text : string) : JSON + error :=
  if String.eqb text loginText then
    inl (JObject [("data", JObject [("ticket", JString "T");
                                    ("CSRFPreventionToken", JString "C")])])
  else if String.eqb text resultText then
    inl (JObject [("data", JObject [("result", JObject [("x", JNumber "1")])])])
  else if String.eqb text emptyDataText then
    inl (JObject [("data", JObject [])])
  else inr "invalid character looking for beginning of value".

Definition sampleTypeError (doc : JSON) (type : string) : error :=
  "json: cannot unmarshal into Go value of type " +:+ type.

Definition sampleFold (name key : string) : bool := false.

Definition sampleFloat (literal : string) : float :=
  if String.eqb literal "1" then 1%float else 0%float.

Fixpoint decimal (s : string) (acc : Z) : option Z :=
  match s with
  | EmptyString => Some acc
  | String c t =>
      match Ascii.is_nat c with
      | Some d => decimal t (10 * acc + Z.of_nat d)
      | None => None
      end
  end.

(** The storing of a document into a destination [struct { X int }], for
    members spelled [x]. *)
Definition storeX (doc : JSON) (x : Z) : Z * option error :=
  match doc with
  | JNull => (x, None)
  | JObject members =>
      match member "x" members with
      | Some (JNumber literal) =>
          match decimal literal 0 with
          | Some n => (n, None)
          | None => (x, Some (sampleTypeError doc "int"))
          end
      | Some JNull | None => (x, None)
      | Some other => (x, Some (sampleTypeError other "int"))
      end
  | _ => (x, Some (sampleTypeError doc "struct { X int }"))
  end.

Definition sampleSprint (x : Empty_set) : string := match x with end.

Definition sampleEncode (vals : Header) : string := "(form)".

(** Parameters with a boolean, two empty strings and a number. *)
Definition sampleParams : gmap string (@any Empty_set) :=
  {[ "force" := bool_any true; "name" := string_any EmptyString;
     "comment" := string_any EmptyString; "vmid" := int_any 100 ]}.

(** A request whose header map, at reference 0, is [sampleBad], and the
    process in which it is. *)
Definition badRequest : http_Request :=
  {| Method := "GET"; URL := "https://pve:8006/api2/json/version";
     ReqHeader := 0%nat; ReqBody := None |}.

Definition badProc : @Proc nat :=
  {| Debug := false; heap := {[ 0%nat := sampleBad ]}; logged := [];
     net := 0%nat; sent := [] |}.

(** A process in which the Session of [sampleSession] has two headers, at
    reference 1, and a request has two, at reference 0. *)
Definition mergeProc : @Proc nat :=
  {| Debug := false;
     heap := {[ 0%nat := {[ "Accept" := ["application/json"]; "X-Call" := ["1"] ]};
                1%nat := {[ "Accept" := ["text/plain"]; "X-Env" := ["prod"] ]} ]};
     logged := []; net := 0%nat; sent := [] |}.

Definition sampleTransportOf (tls : unit) (proxy : option string)
    : @RoundTripFunc nat string :=
  sampleServer "200 OK" 200 "{}".

Definition sampleParseURI (s : string) : string + error := inl s.
Definition sampleHost (u : string) : string := u.
Definition sampleSplit (host : string) : option error := None.

(** The Session that [NewSession] makes in [badProc] without a client of
    the caller, and the one it makes with the client [callerClient]. *)
Definition secureSample : @Session nat string :=
  {| httpClient := {| Transport := secureTransport (sampleTransportOf tt None) |};
     ApiUrl := "https://pve:8006/api2/json"; AuthTicket := EmptyString;
     CsrfToken := EmptyString; AuthToken := EmptyString; Headers := 1%nat |}.

Definition callerClient : @Client nat string :=
  {| Transport := otherTransport (sampleServer "200 OK" 200 "{}") |}.

Definition callerSample : @Session nat string :=
  {| httpClient := callerClient;
     ApiUrl := "https://pve:8006/api2/json"; AuthTicket := EmptyString;
     CsrfToken := EmptyString; AuthToken := EmptyString; Headers := 1%nat |}.

(** A Session without credentials whose client reaches a server that
    answers every request with [loginText]. *)
Definition loginSample : @Session nat string :=
  {| httpClient :=
       {| Transport := otherTransport (sampleServer "200 OK" 200 loginText) |};
     ApiUrl := "https://pve:8006/api2/json"; AuthTicket := EmptyString;
     CsrfToken := EmptyString; AuthToken := EmptyString; Headers := 1%nat |}.

(** A body whose reading fails, and a closing that leaves a mark on the
    network. *)
Definition failingRecv (c : string) (n : nat) : (string + error) * nat :=
  (inr "unexpected EOF", n).

Definition markClose (c : string) (n : nat) : nat := (n + 100)%nat.

(** An [http.NewRequest] that refuses a method with a blank in it. *)
Definition strictRequestLine (method url : string) : option error :=
  if containsb method " " then Some "net/http: invalid method" else None.

(** An encoding of a form that shows its keys, in the order of the list of
    entries of the map. *)
Definition keysEncode (vals : Header) : string :=
  String.concat "&" (map_to_list vals).*1.

(** * Properties *)

(** ** Bytes, strings and substrings *)

Lemma byte_range c : 0 ≤ byte c < 256.
Proof.
  unfold byte. pose proof (N_ascii_bounded c). lia.
Qed.

Lemma byte_chr b : 0 ≤ b < 256 → byte (chr b) = b.
Proof.
  intros Hb. unfold byte, chr.
  change 0xFF with (Z.ones 8). rewrite Z.land_ones by lia.
  rewrite Z.mod_small by (change (2 ^ 8) with 256; lia).
  rewrite N_ascii_embedding; lia.
Qed.

Lemma app_String c s t : String c s +:+ t = String c (s +:+ t).
Proof. done. Qed.

Lemma app_empty s : EmptyString +:+ s = s.
Proof. done. Qed.

Lemma bytes_app s t : bytes (s +:+ t) = bytes s ++ bytes t.
Proof.
  induction s as [|c s IH]; [done |]. rewrite app_String. simpl. by rewrite IH.
Qed.

Lemma prefix_suffix n s : prefix_ n s +:+ suffix_ n s = s.
Proof.
  revert s. induction n as [|n IH]; intros [|c s]; simpl; try done.
  by rewrite app_String, IH.
Qed.

Lemma length_suffix n s :
  String.length (suffix_ n s) = (String.length s - n)%nat.
Proof.
  revert s. induction n as [|n IH]; intros [|c s]; simpl; try done.
Qed.

Lemma contains_bytes s sub b : contains s sub → b ∈ bytes sub → b ∈ bytes s.
Proof.
  intros (pre & post & ->) Hb. rewrite !bytes_app. set_solver.
Qed.

Lemma contains_middle pre sub post : contains (pre +:+ sub +:+ post) sub.
Proof. by exists pre, post. Qed.

Lemma starts_with_spec s sub :
  starts_with s sub = true ↔ ∃ post, s = sub +:+ post.
Proof.
  revert s. induction sub as [|c sub IH]; intros s; simpl.
  - split; [intros _; by exists s | reflexivity].
  - destruct s as [|d s]; simpl.
    + split; [discriminate | intros [post ?]; discriminate].
    + rewrite andb_true_iff, bool_decide_eq_true, IH. split.
      * intros [-> [post ->]]. by exists post.
      * intros [post H]. rewrite app_String in H. injection H as -> ->.
        split; [done | by exists post].
Qed.

Lemma containsb_spec s sub : containsb s sub = true ↔ contains s sub.
Proof.
  induction s as [|d s IH]; simpl.
  - rewrite orb_false_r, starts_with_spec. split.
    + intros [post ->]. by exists EmptyString, post.
    + intros ([|c pre] & post & H); [by exists post | discriminate].
  - rewrite orb_true_iff, starts_with_spec, IH. split.
    + intros [[post ->] | (pre & post & ->)].
      * by exists EmptyString, post.
      * by exists (String d pre), post.
    + intros ([|c pre] & post & H).
      * left. by exists post.
      * right. rewrite app_String in H. injection H as -> ->.
        by exists pre, post.
Qed.

(** Checking a property on every [z] below a bound by enumeration. *)
Lemma below_check (P : Z → bool) (n : nat) :
  forallb P (Z.of_nat <$> seq 0 n) = true →
  ∀ z, 0 ≤ z < Z.of_nat n → P z = true.
Proof.
  intros Hall z Hz. rewrite forallb_forall in Hall. apply Hall.
  apply list_elem_of_In, list_elem_of_fmap. exists (Z.to_nat z).
  split; [lia |]. apply list_elem_of_In, in_seq. lia.
Qed.

Lemma lor_lower_r a b : 0 ≤ a → 0 ≤ b → b ≤ Z.lor a b.
Proof.
  intros Ha Hb. pose proof (Z.sub_lor_l_same_r a b) as H.
  assert (0 ≤ Z.land a (Z.lnot b)) by (apply Z.land_nonneg; lia). lia.
Qed.

Lemma lor_lower_l a b : 0 ≤ a → 0 ≤ b → a ≤ Z.lor a b.
Proof. intros. rewrite Z.lor_comm. by apply lor_lower_r. Qed.

(** ** UTF-8 decoding: ASCII bytes are runes, other runes are not ASCII *)

Import utf8 strconv.

Lemma at_0 c t : at_ (String c t) 0 = byte c.
Proof. done. Qed.
Lemma at_S c t n : at_ (String c t) (S n) = at_ t n.
Proof. done. Qed.

Lemma first_cases b : 0 ≤ b < 256 →
  (b < 0x80 ∧ first b = as_) ∨
  (0x80 ≤ b ∧ first b = xx) ∨
  (0xC2 ≤ b < 0xE0 ∧ first b = 0x02) ∨
  (b = 0xE0 ∧ first b = 0x13) ∨
  (0xE1 ≤ b < 0xF0 ∧ b ≠ 0xED ∧ first b = 0x03) ∨
  (b = 0xED ∧ first b = 0x23) ∨
  (b = 0xF0 ∧ first b = 0x34) ∨
  (0xF1 ≤ b < 0xF4 ∧ first b = 0x04) ∨
  (b = 0xF4 ∧ first b = 0x44).
Proof.
  intros Hb. unfold first.
  repeat (case_match; [rewrite ?Z.ltb_lt, ?Z.eqb_eq in *; lia |]);
    rewrite ?Z.ltb_ge, ?Z.eqb_neq in *; try lia.
Qed.

Lemma land_low b k : 0 ≤ k → Z.land b (2 ^ k - 1) = b mod 2 ^ k.
Proof.
  intros. replace (2 ^ k - 1) with (Z.ones k) by (rewrite Z.ones_equiv; lia).
  by rewrite Z.land_ones.
Qed.

Lemma maskx_mod b : Z.land b maskx = b mod 64.
Proof. apply (land_low b 6). lia. Qed.
Lemma land_31 b : Z.land b mask2 = b mod 32.
Proof. apply (land_low b 5). lia. Qed.
Lemma land_15 b : Z.land b mask3 = b mod 16.
Proof. apply (land_low b 4). lia. Qed.
Lemma land_7 b : Z.land b mask4 = b mod 8.
Proof. apply (land_low b 3). lia. Qed.
Lemma shiftl_6 b : Z.shiftl b 6 = b * 64.
Proof. by rewrite Z.shiftl_mul_pow2. Qed.
Lemma shiftl_12 b : Z.shiftl b 12 = b * 4096.
Proof. by rewrite Z.shiftl_mul_pow2. Qed.
Lemma shiftl_18 b : Z.shiftl b 18 = b * 262144.
Proof. by rewrite Z.shiftl_mul_pow2. Qed.

Ltac bits_to_arith :=
  rewrite ?maskx_mod, ?land_31, ?land_15, ?land_7, ?shiftl_6, ?shiftl_12, ?shiftl_18.

Lemma high_RuneError : 0x80 ≤ RuneError.
Proof. unfold RuneError. lia. Qed.

Ltac decode_goals :=
  right; simpl prefix_; simpl bytes; simpl String.length;
  split_and!; try lia; try apply high_RuneError;
  try (repeat constructor; lia).

Ltac decode_fail Hdec :=
  cbn [Nat.ltb Nat.leb String.length] in Hdec;
  injection Hdec as <- <-; by decode_goals.

Ltac next_byte t c1 Hc1 Hdec :=
  destruct t as [|c1 t]; [decode_fail Hdec |];
  pose proof (byte_range c1) as Hc1.

Ltac accept_test Hdec :=
  match type of Hdec with
  | (if ?b then _ else _) = _ =>
      let Hacc := fresh "Hacc" in
      destruct b eqn:Hacc; [decode_fail Hdec |];
      apply orb_false_iff in Hacc as [? ?]; rewrite Z.ltb_ge in *
  end.

Ltac zlia := Z.div_mod_to_equations; lia.

Ltac nonneg := repeat (apply Z.lor_nonneg; split); zlia.

Ltac lor_chain :=
  first
    [ zlia
    | match goal with
      | |- _ ≤ Z.lor ?a ?b =>
          first [ trans b; [zlia | apply lor_lower_r; nonneg]
                | trans a; [lor_chain | apply lor_lower_l; nonneg] ]
      end ].

Ltac rune_bound := bits_to_arith; lor_chain.

Ltac step_bytes Hdec :=
  rewrite ?at_S, ?at_0 in Hdec;
  cbn [Nat.ltb Nat.leb String.length] in Hdec.

Ltac finish Hdec := injection Hdec as <- <-; decode_goals; rune_bound.

Ltac two_byte t Hdec :=
  let c1 := fresh "c1" in let Hc1 := fresh "Hc1" in
  next_byte t c1 Hc1 Hdec; step_bytes Hdec; accept_test Hdec; finish Hdec.

Ltac three_byte t Hdec :=
  let c1 := fresh "c1" in let Hc1 := fresh "Hc1" in
  let c2 := fresh "c2" in let Hc2 := fresh "Hc2" in
  next_byte t c1 Hc1 Hdec; next_byte t c2 Hc2 Hdec; step_bytes Hdec;
  accept_test Hdec; accept_test Hdec; finish Hdec.

Ltac four_byte t Hdec :=
  let c1 := fresh "c1" in let Hc1 := fresh "Hc1" in
  let c2 := fresh "c2" in let Hc2 := fresh "Hc2" in
  let c3 := fresh "c3" in let Hc3 := fresh "Hc3" in
  next_byte t c1 Hc1 Hdec; next_byte t c2 Hc2 Hdec; next_byte t c3 Hc3 Hdec;
  step_bytes Hdec; accept_test Hdec; accept_test Hdec; accept_test Hdec;
  finish Hdec.

Lemma decode_head c t r w :
  DecodeRuneInString (String c t) = (r, w) →
  (byte c < 0x80 ∧ r = byte c ∧ w = 1%nat)
  ∨ (0x80 ≤ byte c ∧ 0x80 ≤ r ∧ (1 ≤ w ≤ S (String.length t))%nat
     ∧ Forall (λ b, 0x80 ≤ b) (bytes (prefix_ w (String c t)))).
Proof.
  pose proof (byte_range c) as Hc. intros Hdec.
  unfold DecodeRuneInString in Hdec. rewrite ?at_S, ?at_0 in Hdec.
  simpl String.length in Hdec.
  change (S (String.length t) <? 1)%nat with false in Hdec. cbv iota in Hdec.
  unfold locb, hicb in Hdec.
  destruct (first_cases (byte c) Hc) as
    [[H Hf]|[[H Hf]|[[H Hf]|[[H Hf]|[(H & ? & Hf)|[[H Hf]|[[H Hf]|[[H Hf]|[H Hf]]]]]]]]];
    rewrite Hf in Hdec; clear Hf;
    vm_compute (Z.land _ 7) in Hdec; vm_compute (Z.shiftr _ 4) in Hdec;
    vm_compute (Z.to_nat _) in Hdec; vm_compute (acceptRanges _) in Hdec;
    vm_compute (Z.leb as_ _) in Hdec; vm_compute (Z.testbit _ 0) in Hdec;
    cbv iota in Hdec; unfold fst, snd in Hdec.
  - injection Hdec as <- <-. by left.
  - decode_fail Hdec.
  - two_byte t Hdec.
  - three_byte t Hdec.
  - three_byte t Hdec.
  - three_byte t Hdec.
  - four_byte t Hdec.
  - four_byte t Hdec.
  - four_byte t Hdec.
Qed.

Lemma segments_upto_spec n s :
  (String.length s ≤ n)%nat →
  join (segments_upto n s).*2 = s ∧ Forall seg_ok (segments_upto n s).
Proof.
  revert s. induction n as [|n IH]; intros s Hn.
  - destruct s; [done | simpl in Hn; lia].
  - destruct s as [|c t]; [done |].
    cbn [segments_upto].
    destruct (DecodeRuneInString (String c t)) as [r w] eqn:Hdec.
    apply decode_head in Hdec.
    assert (1 ≤ w ≤ S (String.length t))%nat as Hw by (destruct Hdec; lia).
    destruct (IH (suffix_ w (String c t))) as [Hjoin Hok].
    { rewrite length_suffix. simpl in *. lia. }
    split.
    + cbn [fmap list_fmap snd join]. simpl. rewrite Hjoin. apply prefix_suffix.
    + constructor; [| done]. unfold seg_ok. cbn [fst snd].
      destruct Hdec as [(? & -> & ->) | (? & ? & ? & ?)].
      * left. by exists c.
      * right. split_and!; [done | | done]. destruct w; [lia | done].
Qed.

Lemma segments_cover s : join (segments s).*2 = s.
Proof. by apply segments_upto_spec. Qed.

Lemma segments_ok s : Forall seg_ok (segments s).
Proof. by apply segments_upto_spec. Qed.

Lemma bytes_join parts b :
  b ∈ bytes (join parts) ↔ ∃ p, p ∈ parts ∧ b ∈ bytes p.
Proof.
  induction parts as [|p parts IH]; simpl.
  - split; [intros []%elem_of_nil | intros (? & []%elem_of_nil & _)].
  - rewrite bytes_app, elem_of_app, IH. split.
    + intros [? | (q & ? & ?)]; [exists p | exists q]; split; try done;
        [by left | by right].
    + intros (q & [-> | ?]%elem_of_cons & ?); [by left | right; by exists q].
Qed.

(** The runes below 0x80 of a string are exactly its bytes below 0x80. *)
Lemma ascii_rune_iff_byte s r :
  r < 0x80 → r ∈ runes s ↔ r ∈ bytes s.
Proof.
  intros Hr. unfold runes.
  rewrite <- (segments_cover s) at 2. rewrite bytes_join.
  pose proof (segments_ok s) as Hok. rewrite Forall_forall in Hok.
  split.
  - intros [[r' chunk] [-> Hin]]%list_elem_of_fmap. simpl in Hr.
    exists chunk. split; [apply list_elem_of_fmap; by exists (r', chunk) |].
    destruct (Hok _ Hin) as [(c & Hc & _ & Hrc) | (? & _)]; simpl in *; [| lia].
    subst. simpl. by apply list_elem_of_singleton.
  - intros (chunk & [[r' chunk'] [-> Hin]]%list_elem_of_fmap & Hb). simpl in Hb.
    destruct (Hok _ Hin) as [(c & Hc & _ & Hrc) | (? & _ & Hhigh)]; simpl in *.
    + subst. simpl in Hb. apply list_elem_of_singleton in Hb as ->.
      apply list_elem_of_fmap. by exists (byte c, String c EmptyString).
    + rewrite Forall_forall in Hhigh. apply Hhigh in Hb. lia.
Qed.

Lemma isControl_small r : isControl r → r < 0x80.
Proof. unfold isControl. lia. Qed.

Lemma hasControl_bytes v : hasControl v ↔ ∃ b, b ∈ bytes v ∧ isControl b.
Proof.
  unfold hasControl. split; intros (r & Hin & Hr); exists r;
    (split; [| done]); by apply (ascii_rune_iff_byte v r (isControl_small r Hr)).
Qed.

Lemma runes_nonneg s r : r ∈ runes s → 0 ≤ r.
Proof.
  intros [[r' chunk] [-> Hin]]%list_elem_of_fmap.
  pose proof (segments_ok s) as Hok. rewrite Forall_forall in Hok.
  destruct (Hok _ Hin) as [(c & _ & _ & Hrc) | (? & _)]; simpl in *; [| lia].
  pose proof (byte_range c). lia.
Qed.

(** ** Quoting leaves no control byte *)

Lemma plainb_spec s : plainb s = true ↔ plain s.
Proof.
  unfold plainb, plain. rewrite forallb_forall, Forall_forall.
  split; intros H b Hb.
  - apply list_elem_of_In, H in Hb. apply andb_true_iff in Hb as [? ?%negb_true_iff].
    lia.
  - apply list_elem_of_In, H in Hb. apply andb_true_iff. rewrite negb_true_iff. lia.
Qed.

Lemma plain_app s t : plain s → plain t → plain (s +:+ t).
Proof. unfold plain. rewrite bytes_app. apply Forall_app_2. Qed.

Lemma plain_cons c s : 32 ≤ byte c → byte c ≠ 127 → plain s → plain (String c s).
Proof. intros. by constructor. Qed.

Lemma plain_no_control s v : plain s → hasControl v → ¬ contains s v.
Proof.
  intros Hs (b & Hb & Hctl)%hasControl_bytes Hsub.
  unfold plain in Hs. rewrite Forall_forall in Hs.
  destruct (Hs b (contains_bytes _ _ _ Hsub Hb)). unfold isControl in Hctl. lia.
Qed.

Lemma lowerhex_plain d : 32 ≤ byte (lowerhex d) ∧ byte (lowerhex d) ≠ 127.
Proof.
  unfold lowerhex. generalize (Z.to_nat d). intros n.
  do 16 (destruct n as [|n]; [vm_compute; split; congruence |]).
  vm_compute; split; congruence.
Qed.

Lemma hexdigits_plain r shifts : plain (hexdigits r shifts).
Proof.
  induction shifts as [|s shifts IH]; [constructor |].
  simpl. apply plain_cons; [apply lowerhex_plain.. | done].
Qed.

Lemma high_chr T y :
  T ∈ [tx; t2; t3; t4] → 0 ≤ y < 256 → 0x80 ≤ byte (chr (Z.lor T y)).
Proof.
  intros HT Hy.
  assert (∀ T', T' ∈ [tx; t2; t3; t4] →
    (0x80 <=? byte (chr (Z.lor T' y))) = true) as H.
  { apply (below_check (λ y, forallb (λ T', 0x80 <=? byte (chr (Z.lor T' y))) [tx; t2; t3; t4]) 256 eq_refl) in Hy.
    rewrite forallb_forall in Hy. intros T' HT'. by apply Hy, list_elem_of_In. }
  apply Z.leb_le, H, HT.
Qed.

Lemma land_255_range x : 0 ≤ Z.land x 0xFF < 256.
Proof.
  change 0xFF with (Z.ones 8). rewrite Z.land_ones by lia.
  change (2 ^ 8) with 256. zlia.
Qed.

Lemma land_maskx_range x : 0 ≤ Z.land x maskx < 256.
Proof. rewrite maskx_mod. zlia. Qed.

Lemma high_plain b : 0x80 ≤ b → 32 ≤ b ∧ b ≠ 127.
Proof. lia. Qed.

Ltac high_byte :=
  apply high_plain, high_chr;
    [ repeat first [apply list_elem_of_here | apply list_elem_of_further]
    | first [apply land_255_range | apply land_maskx_range] ].

Lemma EncodeRune_plain r :
  (0 ≤ r ≤ 0x7F → 0x20 ≤ r ≤ 0x7E) → plain (EncodeRune r).
Proof.
  intros Hascii. unfold EncodeRune.
  repeat case_match; repeat (apply plain_cons; [..|]); try constructor;
    try high_byte.
  all: match goal with H : _ && _ = true |- _ => apply andb_true_iff in H as [?%Z.leb_le ?%Z.leb_le] end.
  all: rewrite byte_chr by lia; lia.
Qed.

Section QuoteFacts.
Context (isPrintTable : Z → bool).

Lemma IsPrint_ascii r :
  IsPrint isPrintTable r = true → 0 ≤ r ≤ 0x7F → 0x20 ≤ r ≤ 0x7E.
Proof.
  unfold IsPrint. intros H Hr.
  repeat case_match; try done; lia.
Qed.

Lemma escapedRune_plain r : plain (escapedRune isPrintTable r).
Proof.
  unfold escapedRune.
  destruct (orb _ _) eqn:Hq.
  { apply orb_true_iff in Hq as [->%Z.eqb_eq | ->%Z.eqb_eq]; by apply plainb_spec. }
  destruct (IsPrint _ r) eqn:Hp.
  { apply EncodeRune_plain. by apply IsPrint_ascii. }
  repeat case_match; try (by apply plainb_spec);
    (apply plain_app; [by apply plainb_spec | apply hexdigits_plain]).
Qed.

Lemma quoteSegment_plain seg : plain (quoteSegment isPrintTable seg).
Proof.
  unfold quoteSegment. case_match.
  - apply plain_app; [by apply plainb_spec | apply hexdigits_plain].
  - apply escapedRune_plain.
Qed.

Lemma Quote_plain s : plain (Quote isPrintTable s).
Proof.
  unfold Quote. apply plain_cons; [by vm_compute | by vm_compute |].
  induction (segments s) as [|seg segs IH]; simpl.
  - by apply plainb_spec.
  - apply plain_app; [apply quoteSegment_plain | done].
Qed.

End QuoteFacts.
Lemma chr_byte c : chr (byte c) = c.
Proof.
  unfold chr, byte. pose proof (N_ascii_bounded c).
  change 0xFF with (Z.ones 8). rewrite Z.land_ones by lia.
  rewrite Z.mod_small by (change (2 ^ 8) with 256; lia).
  by rewrite N2Z.id, ascii_N_embedding.
Qed.

Lemma segments_upto_ascii n s :
  (String.length s ≤ n)%nat → Forall (λ b, b < 0x80) (bytes s) →
  segments_upto n s = (λ c, (byte c, String c EmptyString)) <$> list_ascii_of_string s.
Proof.
  revert s. induction n as [|n IH]; intros [|c t] Hn Hs; try done.
  { simpl in Hn. lia. }
  cbn [segments_upto]. inversion_clear Hs as [|?? Hc Ht].
  destruct (DecodeRuneInString (String c t)) as [r w] eqn:Hdec.
  apply decode_head in Hdec as [(_ & -> & ->) | (? & _)]; [| lia].
  simpl. f_equal. apply IH; [simpl in Hn; lia | done].
Qed.

Section QuotePlain.
Context (isPrintTable : Z → bool).

Lemma quoteSegments_plainKey key :
  plainKey key →
  quoteSegments isPrintTable
    ((λ c, (byte c, String c EmptyString)) <$> list_ascii_of_string key)
  = key +:+ String dquote EmptyString.
Proof.
  induction key as [|c key IH]; intros Hkey; [done |].
  inversion_clear Hkey as [|?? (Hc & Hq & Hb) Hrest].
  cbn [list_ascii_of_string fmap list_fmap quoteSegments].
  rewrite IH by done. rewrite app_String. f_equal.
  unfold quoteSegment. cbn [fst snd String.length].
  replace (byte c =? RuneError) with false
    by (symmetry; apply Z.eqb_neq; unfold RuneError; lia).
  rewrite andb_false_r. unfold escapedRune.
  replace (byte c =? byte dquote) with false by (symmetry; by apply Z.eqb_neq).
  replace (byte c =? byte backslash) with false by (symmetry; by apply Z.eqb_neq).
  cbn [orb]. unfold IsPrint.
  replace (byte c <=? 0xFF) with true by (symmetry; apply Z.leb_le; lia).
  replace (0x20 <=? byte c) with true by (symmetry; apply Z.leb_le; lia).
  replace (byte c <=? 0x7E) with true by (symmetry; apply Z.leb_le; lia).
  cbn [andb]. unfold EncodeRune.
  replace (0 <=? byte c) with true by (symmetry; apply Z.leb_le; lia).
  replace (byte c <=? 0x7F) with true by (symmetry; apply Z.leb_le; lia).
  cbn [andb]. by rewrite chr_byte.
Qed.

Lemma Quote_plainKey key :
  plainKey key →
  Quote isPrintTable key = String dquote (key +:+ String dquote EmptyString).
Proof.
  intros Hkey. unfold Quote, segments. f_equal.
  rewrite segments_upto_ascii; [by apply quoteSegments_plainKey | done |].
  eapply Forall_impl; [exact Hkey |]. simpl. lia.
Qed.
End QuotePlain.
Lemma ranges_list_to_map {A} (m : gmap string A) order :
  ranges m order → list_to_map order = m ∧ NoDup order.*1.
Proof.
  unfold ranges. intros Hperm.
  assert (NoDup order.*1) as Hnd.
  { rewrite Hperm. apply NoDup_fst_map_to_list. }
  split; [| done].
  rewrite <- (list_to_map_to_list m). by apply list_to_map_proper.
Qed.

Lemma ranges_elem_of {A} (m : gmap string A) order k x :
  ranges m order → (k, x) ∈ order ↔ m !! k = Some x.
Proof.
  unfold ranges. intros ->. apply elem_of_map_to_list.
Qed.

Lemma ranges_map_to_list {A} (m : gmap string A) : ranges m (map_to_list m).
Proof. unfold ranges. reflexivity. Qed.

Section EncoderFacts.
Context {Opaque : Type} (Sprint : Opaque → string).
Implicit Types (params : gmap string (@any Opaque)).

Lemma inArray_spec arr str : inArray arr str = true ↔ str ∈ arr.
Proof.
  unfold inArray. rewrite existsb_exists. split.
  - intros (x & Hin & ->%String.eqb_eq). by apply list_elem_of_In.
  - intros Hin. exists str. split; [by apply list_elem_of_In | apply String.eqb_refl].
Qed.

Lemma encodeParam_value x :
  match x with
  | bool_any b => if b then "1" else "0"
  | _ => Sprintf_v Sprint x
  end = specEncode Sprint x.
Proof. by destruct x as [| [] | | |]. Qed.

Lemma encodeParam_lookup allowedEmpty allowEmpty vals k x k' :
  encodeParam Sprint allowedEmpty allowEmpty vals (k, x) !! k' =
    if decide (k = k' ∧ specKept Sprint allowedEmpty allowEmpty k x)
    then Some [specEncode Sprint x] else vals !! k'.
Proof.
  unfold encodeParam, specKept. rewrite encodeParam_value.
  destruct allowEmpty.
  - destruct (decide (k = k')) as [-> |].
    + rewrite lookup_insert_eq. rewrite decide_True; [done | by split; [| left]].
    + rewrite lookup_insert_ne by done. rewrite decide_False; [done | by intros []].
  - destruct (negb _ || _) eqn:Hkeep.
    + assert (specEncode Sprint x ≠ EmptyString ∨ k ∈ allowedEmpty) as Hk.
      { apply orb_true_iff in Hkeep as [Hne | Hin].
        - left. intros Heq. rewrite Heq in Hne. done.
        - right. by apply inArray_spec. }
      destruct (decide (k = k')) as [-> |].
      * rewrite lookup_insert_eq. rewrite decide_True; [done | split; [done | by right]].
      * rewrite lookup_insert_ne by done. rewrite decide_False; [done | by intros []].
    + apply orb_false_iff in Hkeep as [Hne Hin].
      rewrite decide_False; [done |]. intros [_ [? | [Hx | Hx]]]; [done | |].
      * apply negb_false_iff, String.eqb_eq in Hne. done.
      * apply inArray_spec in Hx. congruence.
Qed.

Lemma encodeParams_lookup order allowedEmpty allowEmpty vals k :
  NoDup order.*1 →
  foldl (encodeParam Sprint allowedEmpty allowEmpty) vals order !! k =
    match (list_to_map order : gmap string any) !! k with
    | Some x =>
        if decide (specKept Sprint allowedEmpty allowEmpty k x)
        then Some [specEncode Sprint x] else vals !! k
    | None => vals !! k
    end.
Proof.
  revert vals. induction order as [|[k0 x0] order IH]; intros vals Hnd.
  - simpl. by rewrite lookup_empty.
  - rewrite fmap_cons in Hnd. apply NoDup_cons in Hnd as [Hk0 Hnd].
    cbn [foldl]. rewrite list_to_map_cons.
    rewrite IH by done. destruct (decide (k0 = k)) as [-> | Hne].
    + rewrite lookup_insert_eq.
      rewrite (not_elem_of_list_to_map_1 order k) by done.
      rewrite encodeParam_lookup.
      destruct (decide (specKept _ _ _ k x0)).
      * rewrite decide_True; done.
      * rewrite decide_False; [done | by intros []].
    + rewrite lookup_insert_ne by done.
      assert (∀ vals', encodeParam Sprint allowedEmpty allowEmpty vals' (k0, x0) !! k = vals' !! k) as Hother.
      { intros vals'. rewrite encodeParam_lookup. rewrite decide_False; [done | by intros []]. }
      rewrite Hother. done.
Qed.

Lemma specEncoder_lookup params allowedEmpty allowEmpty k :
  specEncoder Sprint params allowedEmpty allowEmpty !! k =
    match params !! k with
    | Some x =>
        if decide (specKept Sprint allowedEmpty allowEmpty k x)
        then Some [specEncode Sprint x] else None
    | None => None
    end.
Proof.
  unfold specEncoder. rewrite lookup_fmap, map_lookup_filter.
  destruct (params !! k) as [x|]; simpl; [| done].
  case_guard; simpl; try case_decide; done.
Qed.

End EncoderFacts.
(** ** The header validator *)

Section ValidatorFacts.
Context (isPrintTable : Z → bool).

Lemma validateRunes_Some key rs err :
  validateRunes isPrintTable key rs = Some err →
  err = invalidValueError isPrintTable key ∧ ∃ r, r ∈ rs ∧ (r < 32 ∨ r = 127).
Proof.
  induction rs as [|r rs IH]; simpl; [done |].
  destruct (orb _ _) eqn:Hr.
  - intros [= <-]. split; [done |]. exists r. split; [by left |].
    apply orb_true_iff in Hr as [?%Z.ltb_lt | ?%Z.eqb_eq]; lia.
  - intros [-> (r' & ? & ?)]%IH. split; [done |]. exists r'. split; [by right | done].
Qed.

Lemma validateRunes_None key rs :
  validateRunes isPrintTable key rs = None → ∀ r, r ∈ rs → ¬ (r < 32 ∨ r = 127).
Proof.
  induction rs as [|r rs IH]; simpl; [by intros _ r ?%elem_of_nil |].
  destruct (orb _ _) eqn:Hr; [done |]. intros Hrs r' [-> | ?]%elem_of_cons.
  - apply orb_false_iff in Hr as [?%Z.ltb_ge ?%Z.eqb_neq]. lia.
  - by apply IH.
Qed.

Lemma control_rune v r : r ∈ runes v → (r < 32 ∨ r = 127) ↔ isControl r.
Proof. intros ?%runes_nonneg. unfold isControl. lia. Qed.

Lemma validateValues_Some key values err :
  validateValues isPrintTable key values = Some err →
  err = invalidValueError isPrintTable key ∧ ∃ v, v ∈ values ∧ hasControl v.
Proof.
  induction values as [|v values IH]; simpl; [done |].
  destruct (validateRunes _ key (runes v)) as [err'|] eqn:Hv.
  - intros [= <-]. apply validateRunes_Some in Hv as [-> (r & Hin & Hr)].
    split; [done |]. exists v. split; [by left |]. exists r.
    split; [done | by apply (control_rune v)].
  - intros [-> (v' & ? & ?)]%IH. split; [done |]. exists v'. split; [by right | done].
Qed.

Lemma validateValues_None key values :
  validateValues isPrintTable key values = None →
  ∀ v, v ∈ values → ¬ hasControl v.
Proof.
  induction values as [|v values IH]; simpl; [by intros _ v ?%elem_of_nil |].
  destruct (validateRunes _ key (runes v)) eqn:Hv; [done |].
  intros Hrest v' [-> | ?]%elem_of_cons; [| by apply IH].
  intros (r & Hin & Hr). eapply validateRunes_None; [done.. |].
  by apply (control_rune v).
Qed.

Lemma validateHeader_Some order err :
  validateHeader isPrintTable order = Some err →
  ∃ key values v, (key, values) ∈ order ∧ v ∈ values ∧ hasControl v
    ∧ err = invalidValueError isPrintTable key.
Proof.
  induction order as [|[key values] order IH]; simpl; [done |].
  destruct (validateValues _ key values) as [err'|] eqn:Hv.
  - intros [= <-]. apply validateValues_Some in Hv as [-> (v & ? & ?)].
    exists key, values, v. split_and!; [by left | done..].
  - intros (key' & values' & v & ? & ?)%IH.
    exists key', values', v. split; [by right | done].
Qed.

Lemma validateHeader_None order :
  validateHeader isPrintTable order = None →
  ∀ key values v, (key, values) ∈ order → v ∈ values → ¬ hasControl v.
Proof.
  induction order as [|[key values] order IH]; simpl;
    [by intros _ ??? ?%elem_of_nil |].
  destruct (validateValues _ key values) eqn:Hv; [done |].
  intros Hrest key' values' v [[= -> ->] | ?]%elem_of_cons ?.
  - by eapply validateValues_None.
  - by eapply IH.
Qed.

Lemma validateHeader_fails_iff h order :
  ranges h order →
  is_Some (validateHeader isPrintTable order) ↔ offending h.
Proof.
  intros Hr. split.
  - intros [err (key & values & v & Hin & ? & ? & _)%validateHeader_Some].
    exists key, values, v. split; [by apply (ranges_elem_of h order) | done].
  - intros (key & values & v & Hin & ? & ?).
    destruct (validateHeader _ order) eqn:Hv; [done |].
    exfalso. eapply validateHeader_None; [done | | done..].
    by apply (ranges_elem_of h order).
Qed.

Lemma invalidValueError_plain key : plain (invalidValueError isPrintTable key).
Proof.
  unfold invalidValueError.
  apply plain_app; [by apply plainb_spec |].
  apply plain_app; [apply Quote_plain | by apply plainb_spec].
Qed.

Lemma invalidValueError_plainKey key :
  plainKey key → contains (invalidValueError isPrintTable key) key.
Proof.
  intros Hkey. unfold invalidValueError. rewrite Quote_plainKey by done.
  exists ("value for key " +:+ String dquote EmptyString),
    (String dquote EmptyString +:+ " contains invalid characters").
  generalize " contains invalid characters". intros tail.
  generalize "value for key ". intros front.
  induction front as [|c front IH]; simpl.
  - rewrite !app_empty, !app_String, !app_empty. f_equal.
    induction key as [|c key IH]; [done |].
    rewrite !app_String. f_equal. apply IH. by inversion Hkey.
  - rewrite !app_String. by f_equal.
Qed.

End ValidatorFacts.
(** C2, as amended: for every header mapping, validation fails if and only
    if some value has a code point in [0,31] or equal to 127.  On failure the
    error is [value for key K contains invalid characters], where K is the
    key of a header with such a value as the verb [%q] prints it: the key
    itself between double quotes when it is printable ASCII without double
    quote and backslash, its escaped form otherwise.  Neither this error nor
    the error [secureTransport.RoundTrip] wraps it in contains a value that
    has a control character. *)
Theorem validateHeader_error_names_key (isPrintTable : Z → bool)
    (h : Header) (order : list (string * list string)) :
  ranges h order →
  (is_Some (validateHeader isPrintTable order) ↔ offending h)
  ∧ ∀ err, validateHeader isPrintTable order = Some err →
      (∃ key values v,
          h !! key = Some values ∧ v ∈ values ∧ hasControl v
          ∧ err = "value for key " +:+ Quote isPrintTable key
                    +:+ " contains invalid characters"
          ∧ (plainKey key → contains err key))
      ∧ ∀ v, hasControl v →
          ¬ contains err v ∧ ¬ contains ("invalid header: " +:+ err) v.
Proof.
  intros Hr. split; [by apply validateHeader_fails_iff |].
  intros err (key & values & v & Hin & Hv & Hctl & ->)%validateHeader_Some.
  split.
  - exists key, values, v. split_and!; try done.
    + by apply (ranges_elem_of h order).
    + apply invalidValueError_plainKey.
  - intros v' Hv'. split; apply plain_no_control; try done.
    + apply invalidValueError_plain.
    + apply plain_app; [by apply plainb_spec | apply invalidValueError_plain].
Qed.

Lemma hasControl_nl : hasControl nl.
Proof. exists 10. split; [vm_compute; by left | unfold isControl; lia]. Qed.

Lemma validateHeader_error_names_key_witness :
  ranges sampleBad (map_to_list sampleBad)
  ∧ (is_Some (validateHeader printAll (map_to_list sampleBad))
     ↔ offending sampleBad).
Proof.
  split; [apply ranges_map_to_list |].
  apply (validateHeader_error_names_key printAll sampleBad (map_to_list sampleBad)).
  apply ranges_map_to_list.
Defined.

(** C2, as stated, fails: the header whose only key is [quotedKey] (an a, a
    double quote, a b), with a line feed as value, is refused with an error
    that does not contain the key; the error has the key in its escaped
    form. *)
Lemma validateHeader_error_escapes_key :
  ranges sampleQuoted [(quotedKey, [nl])]
  ∧ ∃ err, validateHeader printAll [(quotedKey, [nl])] = Some err
      ∧ ¬ contains err quotedKey.
Proof.
  split.
  - unfold ranges, sampleQuoted. by rewrite map_to_list_singleton.
  - eexists. split; [vm_compute; reflexivity |].
    rewrite <- containsb_spec. by vm_compute.
Qed.

(** C10: validation looks at the values of a header only.  When no value
    has a code point in [0,31] or equal to 127, validation succeeds,
    whatever the keys are. *)
Theorem validateHeader_ignores_keys (isPrintTable : Z → bool)
    (h : Header) (order : list (string * list string)) :
  ranges h order →
  (∀ key values v r,
      h !! key = Some values → v ∈ values → r ∈ runes v → ¬ isControl r) →
  validateHeader isPrintTable order = None.
Proof.
  intros Hr Hvalues.
  destruct (validateHeader isPrintTable order) as [err|] eqn:Hv; [| done].
  apply validateHeader_Some in Hv as (key & values & v & Hin & ? & (r & ? & ?) & _).
  exfalso. eapply Hvalues; [| done..]. by apply (ranges_elem_of h order).
Qed.

Lemma validateHeader_ignores_keys_witness :
  hasControl nl
  ∧ validateHeader printAll (map_to_list sampleControlKey) = None.
Proof.
  split; [apply hasControl_nl |].
  apply (validateHeader_ignores_keys printAll sampleControlKey).
  - apply ranges_map_to_list.
  - intros key values v r Hkey Hv Hr.
    unfold sampleControlKey in Hkey.
    apply lookup_singleton_Some in Hkey as [_ <-].
    apply list_elem_of_singleton in Hv as ->.
    vm_compute in Hr. unfold isControl.
    repeat (apply elem_of_cons in Hr as [-> | Hr]; [lia |]).
    by apply elem_of_nil in Hr.
Defined.
(** ** The Debug flag, the log and the record of what is sent *)

Section Frames.

Context {World Conn : Type}.
Implicit Types (st : @Proc World).

Lemma follows_same st st' :
  Debug st' = Debug st → logged st' = logged st → sent st' = sent st →
  follows st st'.
Proof.
  intros ? ? Hs. split_and!; [done.. |]. exists []. by rewrite app_nil_r.
Qed.

Lemma follows_refl st : follows st st.
Proof. by apply follows_same. Qed.

Lemma follows_trans st1 st2 st3 : follows st1 st2 → follows st2 st3 → follows st1 st3.
Proof.
  intros (Hd1 & Hl1 & new1 & Hs1 & Hf1) (Hd2 & Hl2 & new2 & Hs2 & Hf2).
  rewrite Hd1 in Hd2, Hl2, Hf2. split_and!.
  - done.
  - intros Hoff. by rewrite Hl2, Hl1.
  - exists (new1 ++ new2). split; [by rewrite Hs2, Hs1, app_assoc |].
    by apply Forall_app.
Qed.

Lemma sameButNet_trans st1 st2 st3 :
  sameButNet st1 st2 → sameButNet st2 st3 → sameButNet st1 st3.
Proof.
  intros (? & ? & ? & ?) (? & ? & ? & ?). split_and!; congruence.
Qed.

Lemma sameButNet_follows st st' : sameButNet st st' → follows st st'.
Proof. intros (? & ? & ? & ?). by apply follows_same. Qed.

Lemma follows_setHeader l key values st : follows st (setHeader l key values st).
Proof. by apply follows_same. Qed.

Lemma follows_addHeaders order dst st : follows st (addHeaders order dst st).
Proof.
  revert st. induction order as [|kv order IH]; intros st; [apply follows_refl |].
  eapply follows_trans; [apply (follows_setHeader dst kv.1 kv.2) | apply IH].
Qed.

Lemma follows_log line st : Debug st = true → follows st (log_Printf line st).
Proof.
  intros Hon. split_and!; [done | by rewrite Hon |].
  exists []. by rewrite app_nil_r.
Qed.

Lemma follows_log_if line st :
  follows st (if Debug st then log_Printf line st else st).
Proof.
  destruct (Debug st) eqn:Hd; [by apply follows_log | apply follows_refl].
Qed.

Lemma follows_dispatch (f : @RoundTripFunc World Conn) w st :
  follows st (dispatch f w st).2.
Proof.
  unfold dispatch. destruct (f w (net st)) as [result net']. simpl.
  split_and!; [done.. |]. exists [(Debug st, w)]. split; [done |].
  by repeat constructor.
Qed.

Context (range : ∀ A : Type, gmap string A → list (string * A)).
Context (isPrintTable : Z → bool) (urlError : string → string → error → error).
Context (recv : Conn → World → (string + error) * World).
Context (closeConn : Conn → World → World).
Context (Values_Encode : Header → string).
Context (json_parse : string → JSON + error) (typeError : JSON → string → error).
Context (requestLineError : string → string → option error).
Context (DumpRequestOut : Wire → string).
Context (DumpResponse : @http_Response Conn → string).
Context (fmt_Errorf : string → error).

Lemma follows_RoundTrip (t : @RoundTripper World Conn) w st :
  follows st (RoundTrip range isPrintTable t w st).2.
Proof.
  destruct t as [underlying | f]; simpl; [| apply follows_dispatch].
  destruct (validateHeader _ _); [apply follows_refl | apply follows_dispatch].
Qed.

Lemma follows_Client_Do (c : @Client World Conn) req st :
  follows st (Client_Do range isPrintTable urlError c req st).2.
Proof.
  unfold Client_Do.
  pose proof (follows_RoundTrip (Transport c) (wireOf req st) st) as H.
  destruct (RoundTrip _ _ _ _ _) as [[resp | err] st']; simpl in *; [| done].
  by destruct (Body resp).
Qed.

Lemma sameButNet_io_ReadAll (r : @ReadCloser Conn) st :
  sameButNet st (io_ReadAll recv r st).2.
Proof.
  destruct r as [c | unread]; simpl; [| done].
  by destruct (recv c (net st)).
Qed.

Lemma sameButNet_Close (r : @ReadCloser Conn) st :
  sameButNet st (Close closeConn r st).
Proof. by destruct r. Qed.

Lemma follows_Do (s : @Session World Conn) req st :
  follows st
    (Do range isPrintTable urlError recv closeConn DumpRequestOut DumpResponse
       fmt_Errorf s req st).2.
Proof.
  unfold Do.
  set (st1 := addHeaders _ _ st).
  assert (follows st st1) as H1 by apply follows_addHeaders.
  set (st2 := if Debug st1 then _ else st1).
  assert (follows st st2) as H2.
  { eapply follows_trans; [exact H1 | apply follows_log_if]. }
  pose proof (follows_Client_Do (httpClient s) req st2) as H3.
  destruct (Client_Do _ _ _ _ _ _) as [[[resp body] | err] st3]; simpl in *;
    [| by eapply follows_trans].
  pose proof (sameButNet_io_ReadAll body st3) as H4.
  destruct (io_ReadAll recv body st3) as [[[respBody | err] body'] st4];
    simpl in *.
  - set (st5 := Close closeConn body' st4).
    assert (follows st st5) as H5.
    { eapply follows_trans; [exact H2 |]. eapply follows_trans; [exact H3 |].
      apply sameButNet_follows. eapply sameButNet_trans; [exact H4 |].
      apply sameButNet_Close. }
    set (st6 := if Debug st5 then _ else st5).
    assert (follows st st6) as H6.
    { eapply follows_trans; [exact H5 | apply follows_log_if]. }
    by destruct (_ || _).
  - eapply follows_trans; [exact H2 |]. eapply follows_trans; [exact H3 |].
    by apply sameButNet_follows.
Qed.

Lemma follows_http_NewRequest method url body st :
  follows st (http_NewRequest requestLineError method url body st).2.
Proof.
  unfold http_NewRequest. destruct (requestLineError _ url); simpl;
    [apply follows_refl | by apply follows_same].
Qed.

Lemma follows_NewRequest (s : @Session World Conn) method url headers body st :
  follows st (NewRequest requestLineError s method url headers body st).2.
Proof.
  unfold NewRequest.
  pose proof (follows_http_NewRequest method url body st) as H.
  destruct (http_NewRequest _ _ _ _ _) as [[req | err] st1]; simpl in *; [| done].
  repeat case_match; simpl; try done;
    (eapply follows_trans; [exact H | by apply follows_same]).
Qed.

Lemma follows_Request (s : @Session World Conn) method url params headers body st :
  follows st
    (Request range isPrintTable urlError recv closeConn Values_Encode
       requestLineError DumpRequestOut DumpResponse fmt_Errorf
       s method url params headers body st).2.
Proof.
  unfold Request.
  match goal with |- context [NewRequest _ _ _ ?u _ _ _] =>
    pose proof (follows_NewRequest s method u headers body st) as H end.
  destruct (NewRequest _ _ _ _ _ _ _) as [[req | err] st1]; simpl in *; [| done].
  eapply follows_trans; [exact H |].
  eapply follows_trans; [apply (follows_setHeader (ReqHeader req) "Accept") |].
  apply follows_Do.
Qed.

Lemma follows_Post (s : @Session World Conn) url params headers body st :
  follows st
    (Post range isPrintTable urlError recv closeConn Values_Encode
       requestLineError DumpRequestOut DumpResponse fmt_Errorf
       s url params headers body st).2.
Proof.
  unfold Post. destruct headers as [h |]; [apply follows_Request |].
  destruct (newHeader st) as [h st1] eqn:Hnew.
  eapply follows_trans; [| apply follows_Request].
  injection Hnew as <- <-. by apply follows_same.
Qed.

Lemma sameButNet_decodeResponse {T} (store : JSON → T → T * option error)
    (resp : @http_Response Conn) v st :
  sameButNet st (decodeResponse recv json_parse store resp v st).2.
Proof.
  unfold decodeResponse. destruct (Body resp) as [body |]; [| done].
  pose proof (sameButNet_io_ReadAll body st) as H.
  destruct (io_ReadAll recv body st) as [[[rbody | err] body'] st1];
    simpl in *; [| done].
  by destruct (json_Unmarshal _ _ _ _).
Qed.

End Frames.
Section LoginDebug.

Context {World Conn Opaque : Type}.
Context (range : ∀ A : Type, gmap string A → list (string * A)).
Context (isPrintTable : Z → bool) (urlError : string → string → error → error).
Context (recv : Conn → World → (string + error) * World).
Context (closeConn : Conn → World → World).
Context (Sprint : Opaque → string) (Values_Encode : Header → string).
Context (json_parse : string → JSON + error) (typeError : JSON → string → error).
Context (requestLineError : string → string → option error).
Context (DumpRequestOut : Wire → string).
Context (DumpResponse : @http_Response Conn → string).
Context (fmt_Errorf : string → error) (ParseFloat : string → float).

(** C3: whatever the value of the Debug flag when [Login] is called, and
    however the call ends (no error, an error of the login, an error of the
    transport, even a panic on the response), the flag has that value again
    afterwards; every request handed to the network in between was sent
    with the flag off, and nothing was logged. *)
Theorem Login_restores_Debug (s : @Session World Conn)
    (username password otp : string) (st : @Proc World) :
  let '(_, _, st') :=
    Login range isPrintTable urlError recv closeConn Sprint Values_Encode
      json_parse typeError requestLineError DumpRequestOut DumpResponse
      fmt_Errorf ParseFloat s username password otp st in
  Debug st' = Debug st
  ∧ logged st' = logged st
  ∧ ∃ new, sent st' = sent st ++ new ∧ Forall (λ d, d.1 = false) new.
Proof.
  unfold Login.
  match goal with |- context [Post _ _ _ _ _ _ _ _ _ _ s ?u ?p ?h ?b ?st0] =>
    pose proof (follows_Post range isPrintTable urlError recv closeConn
                  Values_Encode requestLineError DumpRequestOut DumpResponse
                  fmt_Errorf s u p h b st0) as HP
  end.
  destruct (Post _ _ _ _ _ _ _ _ _ _ _ _ _ _ _ _) as [[resp err] st1].
  destruct HP as (Hd & Hl & new & Hs & Hnew). simpl in Hd, Hl, Hs, Hnew.
  specialize (Hl eq_refl).
  assert (∀ st2,
    sameButNet (setDebug (Debug st) st1) st2 →
    Debug st2 = Debug st ∧ logged st2 = logged st
    ∧ ∃ new, sent st2 = sent st ++ new ∧ Forall (λ d, d.1 = false) new) as Hend.
  { intros st2 (Hd2 & _ & Hl2 & Hs2). simpl in *. split_and!; [congruence.. |].
    exists new. split; [congruence | done]. }
  destruct err as [err |]; [by apply Hend |].
  destruct resp as [resp |]; [| by apply Hend].
  pose proof (sameButNet_decodeResponse recv json_parse (storeMap typeError)
                resp None (setDebug (Debug st) st1)) as HR.
  unfold ResponseJSON.
  destruct (decodeResponse _ _ _ _ _ _) as [[[jbody err] resp'] st2].
  simpl in HR. specialize (Hend st2 HR).
  repeat case_match; simplify_eq; exact Hend.
Qed.

End LoginDebug.
(** ** Header maps behind references *)

Section HeapFacts.

Context {World : Type}.
Implicit Types (st : @Proc World).

Lemma headerAt_setHeader l key values st :
  headerAt l (setHeader l key values st) = <[key := values]> (headerAt l st).
Proof. unfold headerAt, setHeader. simpl. by rewrite lookup_total_insert_eq. Qed.

Lemma headerAt_setHeader_ne l l' key values st :
  l ≠ l' → headerAt l' (setHeader l key values st) = headerAt l' st.
Proof.
  intros. unfold headerAt, setHeader. simpl. by rewrite lookup_total_insert_ne.
Qed.

Lemma headerAt_fresh st : headerAt (fresh (dom (heap st))) st = ∅.
Proof.
  unfold headerAt. rewrite lookup_total_alt.
  by rewrite (not_elem_of_dom_1 (heap st) _ (is_fresh _)).
Qed.

Lemma headerAt_newHeader l st : headerAt l (newHeader st).2 = headerAt l st.
Proof.
  unfold newHeader. simpl. destruct (decide (l = fresh (dom (heap st)))) as [-> |].
  - rewrite headerAt_fresh. unfold headerAt. simpl. by rewrite lookup_total_insert_eq.
  - unfold headerAt. simpl. by rewrite lookup_total_insert_ne.
Qed.

Lemma headerAt_newHeader_new st : headerAt (newHeader st).1 (newHeader st).2 = ∅.
Proof. unfold newHeader, headerAt. simpl. by rewrite lookup_total_insert_eq. Qed.

End HeapFacts.

(** ** NewRequest *)

Section NewRequestFacts.

Context {World Conn : Type}.
Context (requestLineError : string → string → option error).

(** C1, as amended: [NewRequest] takes over the headers the caller gives
    (none when the caller gives none) and then attaches at most one
    authentication scheme.  With a token set, whether or not a ticket is set
    too, the request has these headers with [Authorization] replaced by the
    single value [PVEAPIToken=] followed by the token, and no CSRF header is
    added; with only a ticket set, [Authorization] is the single value
    [PVEAuthCookie=] followed by the ticket and [CSRFPreventionToken] is the
    CSRF token; with neither set, the headers are those given. *)
Theorem NewRequest_attaches_one_scheme (s : @Session World Conn)
    (method url : string) (headers : option loc) (body : option string)
    (st st' : @Proc World) (req : http_Request) :
  NewRequest requestLineError s method url headers body st = (inl req, st') →
  let given :=
    match headers with
    | Some h => headerAt h st
    | None => ∅
    end in
  let carried := headerAt (ReqHeader req) st' in
  (AuthToken s ≠ EmptyString →
     carried = <["Authorization" := ["PVEAPIToken=" +:+ AuthToken s]]> given)
  ∧ (AuthToken s = EmptyString → AuthTicket s ≠ EmptyString →
       carried = <["CSRFPreventionToken" := [CsrfToken s]]>
                   (<["Authorization" := ["PVEAuthCookie=" +:+ AuthTicket s]]> given))
  ∧ (AuthToken s = EmptyString → AuthTicket s = EmptyString → carried = given).
Proof.
  unfold NewRequest, http_NewRequest.
  destruct (requestLineError _ url) as [err |]; [done |].
  destruct (newHeader st) as [h0 st0] eqn:Hnew.
  assert (st0 = (newHeader st).2) as Hst0 by by rewrite Hnew.
  assert (h0 = (newHeader st).1) as Hh0 by by rewrite Hnew.
  set (req0 := match headers with Some h => withHeader _ h | None => _ end).
  assert (headerAt (ReqHeader req0) st0 =
          match headers with Some h => headerAt h st | None => ∅ end) as Hgiven.
  { subst st0 h0. destruct headers as [h |]; simpl.
    - apply headerAt_newHeader.
    - apply headerAt_newHeader_new. }
  intros Hreq. rewrite <- Hgiven.
  destruct (String.eqb (AuthToken s) EmptyString) eqn:Htok; simpl in Hreq.
  - apply String.eqb_eq in Htok.
    destruct (String.eqb (AuthTicket s) EmptyString) eqn:Htic; simpl in Hreq;
      injection Hreq as <- <-.
    + apply String.eqb_eq in Htic. split_and!; [done | done |]. done.
    + apply String.eqb_neq in Htic. split_and!; [done | | done].
      intros _ _. by rewrite !headerAt_setHeader.
  - apply String.eqb_neq in Htok. injection Hreq as <- <-.
    split_and!; [| done..]. intros _. by rewrite headerAt_setHeader.
Qed.

End NewRequestFacts.

Lemma NewRequest_attaches_one_scheme_witness :
  ∃ req st',
    NewRequest anyRequestLine (sampleSession (sampleServer "200 OK" 200 "{}"))
      "GET" "/version" None None sampleProc = (inl req, st')
    ∧ headerAt (ReqHeader req) st'
      = <["Authorization" := ["PVEAPIToken=root@pam!id=uuid"]]> ∅.
Proof.
  eexists _, _. split; [reflexivity |].
  eapply (NewRequest_attaches_one_scheme anyRequestLine
            (sampleSession (sampleServer "200 OK" 200 "{}"))
            "GET" "/version" None None sampleProc); [reflexivity | done].
Defined.

(** C1, as stated, fails: on a Session with both a token and a ticket,
    [NewRequest] called with headers that hold a CSRF header returns a
    request that carries this header next to the token. *)
Lemma NewRequest_keeps_given_csrf :
  ∃ req st',
    NewRequest anyRequestLine (sampleSession (sampleServer "200 OK" 200 "{}"))
      "GET" "/version" (Some 0%nat) None staleProc = (inl req, st')
    ∧ AuthToken (sampleSession (sampleServer "200 OK" 200 "{}")) ≠ EmptyString
    ∧ AuthTicket (sampleSession (sampleServer "200 OK" 200 "{}")) ≠ EmptyString
    ∧ headerAt (ReqHeader req) st' !! "Authorization"
      = Some ["PVEAPIToken=root@pam!id=uuid"]
    ∧ headerAt (ReqHeader req) st' !! "CSRFPreventionToken" = Some ["stale"].
Proof.
  eexists _, _. split; [reflexivity |]. split_and!; [done | done | |]; by vm_compute.
Qed.
(** ** Do: the headers of the Session, and the body of the response *)

Section DoFacts.

Context {World Conn : Type}.
Implicit Types (st : @Proc World).
Context (range : ∀ A : Type, gmap string A → list (string * A)).
Context (isPrintTable : Z → bool) (urlError : string → string → error → error).
Context (recv : Conn → World → (string + error) * World).
Context (closeConn : Conn → World → World).
Context (DumpRequestOut : Wire → string).
Context (DumpResponse : @http_Response Conn → string).
Context (fmt_Errorf : string → error).

Lemma addHeaders_cons kv order dst st :
  addHeaders (kv :: order) dst st = addHeaders order dst (setHeader dst kv.1 kv.2 st).
Proof. done. Qed.

Lemma sent_addHeaders order dst st : sent (addHeaders order dst st) = sent st.
Proof.
  revert st. induction order as [|kv order IH]; intros st; [done |].
  by rewrite addHeaders_cons, IH.
Qed.

Lemma headerAt_addHeaders order dst st :
  NoDup order.*1 →
  headerAt dst (addHeaders order dst st) = list_to_map order ∪ headerAt dst st.
Proof.
  revert st. induction order as [|[k v] order IH]; intros st Hnd.
  - simpl. by rewrite (left_id_L ∅ (∪)).
  - rewrite fmap_cons in Hnd. apply NoDup_cons in Hnd as [Hk Hnd].
    rewrite addHeaders_cons, IH by done. cbn [fst snd].
    rewrite headerAt_setHeader, list_to_map_cons.
    rewrite <- insert_union_l.
    by rewrite insert_union_r by by apply not_elem_of_list_to_map_1.
Qed.

Lemma headerAt_addHeaders_ranges (session : Header) order dst st :
  ranges session order →
  headerAt dst (addHeaders order dst st) = session ∪ headerAt dst st.
Proof.
  intros [<- Hnd]%ranges_list_to_map. by apply headerAt_addHeaders.
Qed.

Lemma union_sessionFirst (session request : Header) key :
  (session ∪ request) !! key = sessionFirst session request key.
Proof.
  unfold sessionFirst. rewrite lookup_union.
  destruct (session !! key), (request !! key); done.
Qed.

Lemma sendsOnly_refl w st : sendsOnly w st st.
Proof. split; [done |]. exists []. by rewrite app_nil_r. Qed.

Lemma sendsOnly_same w st st' :
  heap st' = heap st → sent st' = sent st → sendsOnly w st st'.
Proof. intros ? Hs. split; [done |]. exists []. by rewrite app_nil_r. Qed.

Lemma sendsOnly_trans w st1 st2 st3 :
  sendsOnly w st1 st2 → sendsOnly w st2 st3 → sendsOnly w st1 st3.
Proof.
  intros (Hh1 & new1 & Hs1 & Hf1) (Hh2 & new2 & Hs2 & Hf2). split; [congruence |].
  exists (new1 ++ new2). split; [by rewrite Hs2, Hs1, app_assoc |].
  by apply Forall_app.
Qed.

Lemma sendsOnly_sameButNet w st st' : sameButNet st st' → sendsOnly w st st'.
Proof. intros (? & ? & ? & ?). by apply sendsOnly_same. Qed.

Lemma sendsOnly_dispatch (f : @RoundTripFunc World Conn) w st :
  sendsOnly w st (dispatch f w st).2.
Proof.
  unfold dispatch. destruct (f w (net st)) as [result net']. simpl.
  split; [done |]. exists [(Debug st, w)]. split; [done |]. by repeat constructor.
Qed.

Lemma sendsOnly_RoundTrip (t : @RoundTripper World Conn) w st :
  sendsOnly w st (RoundTrip range isPrintTable t w st).2.
Proof.
  destruct t as [underlying | f]; simpl; [| apply sendsOnly_dispatch].
  destruct (validateHeader _ _); [apply sendsOnly_refl | apply sendsOnly_dispatch].
Qed.

Lemma sendsOnly_Client_Do (c : @Client World Conn) req st :
  sendsOnly (wireOf req st) st (Client_Do range isPrintTable urlError c req st).2.
Proof.
  unfold Client_Do.
  pose proof (sendsOnly_RoundTrip (Transport c) (wireOf req st) st) as H.
  destruct (RoundTrip _ _ _ _ _) as [[resp | err] st']; simpl in *; [| done].
  by destruct (Body resp).
Qed.

Lemma sendsOnly_log_if w line st :
  sendsOnly w st (if Debug st then log_Printf line st else st).
Proof. destruct (Debug st); by apply sendsOnly_same. Qed.

Lemma wireOf_heap req st st' : heap st' = heap st → wireOf req st' = wireOf req st.
Proof. intros Hh. unfold wireOf, headerAt. by rewrite Hh. Qed.

(** What [Do] does to the header maps and what it sends. *)
Lemma Do_sends (s : @Session World Conn) req st :
  let st1 := addHeaders (range _ (headerAt (Headers s) st)) (ReqHeader req) st in
  heap st1 = heap (Do range isPrintTable urlError recv closeConn DumpRequestOut
                     DumpResponse fmt_Errorf s req st).2
  ∧ sendsOnly (wireOf req st1) st1
      (Do range isPrintTable urlError recv closeConn DumpRequestOut
         DumpResponse fmt_Errorf s req st).2.
Proof.
  intros st1. unfold Do. fold st1.
  set (st2 := if Debug st1 then _ else st1).
  assert (sendsOnly (wireOf req st1) st1 st2) as H2 by apply sendsOnly_log_if.
  assert (wireOf req st2 = wireOf req st1) as Hw by (apply wireOf_heap, H2).
  pose proof (sendsOnly_Client_Do (httpClient s) req st2) as H3. rewrite Hw in H3.
  assert (∀ st', sendsOnly (wireOf req st1) st1 st' →
            heap st1 = heap st' ∧ sendsOnly (wireOf req st1) st1 st') as Hend.
  { intros st' H. split; [symmetry; apply H | done]. }
  destruct (Client_Do _ _ _ _ _ _) as [[[resp body] | err] st3]; simpl in *;
    [| by apply Hend; eapply sendsOnly_trans].
  pose proof (sameButNet_io_ReadAll recv body st3) as H4.
  destruct (io_ReadAll recv body st3) as [[[respBody | err] body'] st4];
    simpl in *.
  - set (st5 := Close closeConn body' st4).
    assert (sendsOnly (wireOf req st1) st1 st5) as H5.
    { eapply sendsOnly_trans; [exact H2 |]. eapply sendsOnly_trans; [exact H3 |].
      apply sendsOnly_sameButNet. eapply sameButNet_trans; [exact H4 |].
      apply sameButNet_Close. }
    set (st6 := if Debug st5 then _ else st5).
    assert (sendsOnly (wireOf req st1) st1 st6) as H6.
    { eapply sendsOnly_trans; [exact H5 | apply sendsOnly_log_if]. }
    destruct (_ || _); by apply Hend.
  - apply Hend. eapply sendsOnly_trans; [exact H2 |].
    eapply sendsOnly_trans; [exact H3 |]. by apply sendsOnly_sameButNet.
Qed.

(** C9: after [Do] the request has, for every key among the headers of the
    Session, the values the Session has for it, and for every other key the
    values it had; these are the headers of what [Do] hands to the
    transport. *)
Theorem Do_session_headers_override (s : @Session World Conn)
    (req : http_Request) (st : @Proc World) :
  ranges (headerAt (Headers s) st) (range _ (headerAt (Headers s) st)) →
  let '(_, _, st') :=
    Do range isPrintTable urlError recv closeConn DumpRequestOut DumpResponse
      fmt_Errorf s req st in
  let merged :=
    sessionFirst (headerAt (Headers s) st) (headerAt (ReqHeader req) st) in
  (∀ key, headerAt (ReqHeader req) st' !! key = merged key)
  ∧ ∃ new, sent st' = sent st ++ new
      ∧ Forall (λ d, ∀ key, wHeader d.2 !! key = merged key) new.
Proof.
  intros Hr. pose proof (Do_sends s req st) as [Hheap (_ & new & Hsent & Hnew)].
  destruct (Do _ _ _ _ _ _ _ _ _ _ _) as [[resp err] st']. simpl in *.
  set (st1 := addHeaders _ _ st) in *.
  assert (∀ key, headerAt (ReqHeader req) st1 !! key =
            sessionFirst (headerAt (Headers s) st) (headerAt (ReqHeader req) st) key)
    as Hmerged.
  { intros key. unfold st1.
    rewrite (headerAt_addHeaders_ranges (headerAt (Headers s) st)) by done.
    apply union_sessionFirst. }
  split.
  - intros key. rewrite <- Hmerged. unfold headerAt. by rewrite Hheap.
  - exists new. split.
    + rewrite Hsent. unfold st1. by rewrite sent_addHeaders.
    + eapply Forall_impl; [exact Hnew |]. intros d -> key. simpl. apply Hmerged.
Qed.

(** C7, as amended: the body of a response that [Do] returns is held in
    memory.  It is the bytes that [Do] has read from the body the client
    gave; reading it to its end gives these bytes, without a change of the
    process or the network, and leaves a reader at its end: a second read
    to the end gives no bytes.  The reader is not rewound. *)
Theorem Do_buffers_body_once (s : @Session World Conn) (req : http_Request)
    (st st' : @Proc World) (resp : http_Response) (err : option error) :
  Do range isPrintTable urlError recv closeConn DumpRequestOut DumpResponse
    fmt_Errorf s req st = (Some resp, err, st') →
  let st1 := addHeaders (range _ (headerAt (Headers s) st)) (ReqHeader req) st in
  let st2 :=
    if Debug st1 then
      log_Printf (">>>>>>>>>> REQUEST:" +:+ nl +:+ DumpRequestOut (wireOf req st1)) st1
    else st1 in
  ∃ resp0 body0 st3 body0' st4 respBody,
    Client_Do range isPrintTable urlError (httpClient s) req st2
      = (inl (resp0, body0), st3)
    ∧ io_ReadAll recv body0 st3 = (inl respBody, body0', st4)
    ∧ Body resp = Some (bufferedBody respBody)
    ∧ ∀ st0 : @Proc World,
        io_ReadAll recv (bufferedBody respBody) st0
          = (inl respBody, bufferedBody EmptyString, st0)
        ∧ io_ReadAll recv (bufferedBody EmptyString) st0
          = (inl EmptyString, bufferedBody EmptyString, st0).
Proof.
  intros Hdo st1 st2. unfold Do in Hdo. fold st1 in Hdo. fold st2 in Hdo.
  destruct (Client_Do _ _ _ _ _ st2) as [[[resp0 body] | err0] st3]; [| done].
  destruct (io_ReadAll recv body st3) as [[[respBody | err0] body'] st4] eqn:Hread;
    [| done].
  exists resp0, body, st3, body', st4, respBody.
  split_and!; [done | done | | done].
  destruct (_ || _); by injection Hdo as <- _ _.
Qed.

Lemma RoundTrip_secure_offending (underlying : @RoundTripFunc World Conn) w st :
  ranges (wHeader w) (range _ (wHeader w)) → offending (wHeader w) →
  ∃ cause,
    RoundTrip range isPrintTable (secureTransport underlying) w st
    = (inr ("invalid header: " +:+ cause), st).
Proof.
  intros Hr Hoff. simpl.
  apply (validateHeader_fails_iff isPrintTable _ _ Hr) in Hoff as [cause ->].
  by exists cause.
Qed.

Lemma RoundTrip_secure_clean (underlying : @RoundTripFunc World Conn) w st :
  ranges (wHeader w) (range _ (wHeader w)) → ¬ offending (wHeader w) →
  RoundTrip range isPrintTable (secureTransport underlying) w st
  = dispatch underlying w st.
Proof.
  intros Hr Hclean. simpl.
  destruct (validateHeader _ _) as [cause |] eqn:Hv; [| done].
  exfalso. apply Hclean, (validateHeader_fails_iff isPrintTable _ _ Hr). by eexists.
Qed.

Lemma sent_dispatch (f : @RoundTripFunc World Conn) w st :
  sent (dispatch f w st).2 = sent st ++ [(Debug st, w)].
Proof. unfold dispatch. by destruct (f w (net st)). Qed.

(** What [Do] does on a Session whose client has a [secureTransport]. *)
Lemma Do_secure (s : @Session World Conn) underlying req st :
  Transport (httpClient s) = secureTransport underlying →
  let w :=
    wireOf req
      (addHeaders (range _ (headerAt (Headers s) st)) (ReqHeader req) st) in
  ranges (wHeader w) (range _ (wHeader w)) →
  let '(resp, err, st') :=
    Do range isPrintTable urlError recv closeConn DumpRequestOut DumpResponse
      fmt_Errorf s req st in
  (offending (wHeader w) →
     resp = None
     ∧ (∃ cause,
          err = Some (urlError (Method req) (URL req)
                        ("invalid header: " +:+ cause)))
     ∧ sent st' = sent st ∧ net st' = net st)
  ∧ (¬ offending (wHeader w) → sent st' = sent st ++ [(Debug st, w)]).
Proof.
  intros Hsec w Hr. unfold Do.
  set (st1 := addHeaders _ _ st) in *.
  set (st2 := if Debug st1 then _ else st1).
  assert (wireOf req st2 = w ∧ sent st2 = sent st ∧ net st2 = net st1
          ∧ Debug st2 = Debug st) as (Hw & Hs2 & Hn2 & Hd2).
  { unfold st2, w. pose proof (follows_addHeaders (range _ (headerAt (Headers s) st))
                                 (ReqHeader req) st) as [Hd _].
    fold st1 in Hd. unfold st1 at 3. rewrite <- (sent_addHeaders (range _ (headerAt (Headers s) st)) (ReqHeader req) st).
    fold st1. split_and!.
    - apply wireOf_heap. by destruct (Debug st1).
    - by destruct (Debug st1).
    - by destruct (Debug st1).
    - rewrite <- Hd. by destruct (Debug st1) eqn:E. }
  assert (net st1 = net st) as Hn1.
  { unfold st1. generalize (range _ (headerAt (Headers s) st)). intros order.
    clear. revert st. induction order as [|kv order IH]; intros st; [done |].
    by rewrite addHeaders_cons, IH. }
  unfold Client_Do. rewrite Hsec, Hw.
  pose proof (validateHeader_fails_iff isPrintTable _ _ Hr) as Hiff.
  unfold RoundTrip.
  destruct (validateHeader isPrintTable _) as [cause |] eqn:Hv.
  - split; [| intros []; apply Hiff; by eexists].
    intros _. split_and!; [done | by exists cause | done | congruence].
  - assert (¬ offending (wHeader w)) as Hclean.
    { intros [? ?]%Hiff. done. }
    pose proof (sent_dispatch underlying w st2) as Hsd.
    rewrite Hs2, Hd2 in Hsd.
    assert (∀ (resp : option (@http_Response Conn)) (err : option error) st',
      sent st' = sent st ++ [(Debug st, w)] →
      (offending (wHeader w) →
         resp = None
         ∧ (∃ cause,
              err = Some (urlError (Method req) (URL req)
                            ("invalid header: " +:+ cause)))
         ∧ sent st' = sent st ∧ net st' = net st)
      ∧ (¬ offending (wHeader w) → sent st' = sent st ++ [(Debug st, w)]))
      as Hfin by (intros; by split).
    destruct (dispatch underlying w st2) as [[resp0 | err0] st3]; simpl in Hsd;
      [| by apply Hfin].
    destruct (Body resp0) as [body |]; [| by apply Hfin].
    pose proof (sameButNet_io_ReadAll recv body st3) as (_ & _ & _ & Hs4).
    destruct (io_ReadAll recv body st3) as [[[respBody | err0] body'] st4];
      simpl in Hs4; [| apply Hfin; congruence].
    pose proof (sameButNet_Close closeConn body' st4) as (_ & _ & _ & Hs5).
    set (st5 := Close closeConn body' st4) in *.
    set (st6 := if Debug st5 then _ else st5).
    assert (sent st6 = sent st5) as Hs6 by (unfold st6; by destruct (Debug st5)).
    destruct (_ || _); apply Hfin; congruence.
Qed.

End DoFacts.
(** ** Login on a response without the expected fields *)

Section LoginFacts.

Context {World Conn Opaque : Type}.
Context (range : ∀ A : Type, gmap string A → list (string * A)).
Context (isPrintTable : Z → bool) (urlError : string → string → error → error).
Context (recv : Conn → World → (string + error) * World).
Context (closeConn : Conn → World → World).
Context (Sprint : Opaque → string) (Values_Encode : Header → string).
Context (json_parse : string → JSON + error) (typeError : JSON → string → error).
Context (requestLineError : string → string → option error).
Context (DumpRequestOut : Wire → string).
Context (DumpResponse : @http_Response Conn → string).
Context (fmt_Errorf : string → error) (ParseFloat : string → float).

Local Abbreviation Login' :=
  (Login range isPrintTable urlError recv closeConn Sprint Values_Encode
     json_parse typeError requestLineError DumpRequestOut DumpResponse
     fmt_Errorf ParseFloat).

Local Abbreviation Post' :=
  (Post range isPrintTable urlError recv closeConn Values_Encode
     requestLineError DumpRequestOut DumpResponse fmt_Errorf).

(** What [Login] does once the response has come and its body is the
    JSON object [members]. *)
Lemma Login_on_response (s : @Session World Conn) username password otp
    (st st1 : @Proc World) (resp : http_Response) body members :
  Post' s "/access/ticket" None (Some (Headers s))
    (Some (loginBody range Sprint Values_Encode username password otp))
    (setDebug false st) = (Some resp, None, st1) →
  Body resp = Some (bufferedBody body) →
  json_parse body = inl (JObject members) →
  Login' s username password otp st =
    let st2 := setDebug (Debug st) st1 in
    if isNil (member "data" members) then
      (Returns (Some ("invalid login response:" +:+ nl +:+ "-----" +:+ nl
                        +:+ DumpResponse resp +:+ nl +:+ "-----")), s, st2)
    else
      match member "data" members with
      | Some (JObject dat) =>
          if isOne ParseFloat (member "NeedTFA" dat) then
            (Returns (Some "missing TFA code"), s, st2)
          else
            match member "ticket" dat with
            | Some (JString ticket) =>
                match member "CSRFPreventionToken" dat with
                | Some (JString token) =>
                    (Returns None, setCsrfToken token (setAuthTicket ticket s), st2)
                | x => (conversionPanic x "string", setAuthTicket ticket s, st2)
                end
            | x => (conversionPanic x "string", s, st2)
            end
      | x => (conversionPanic x "map[string]interface {}", s, st2)
      end.
Proof.
  intros HPost HBody Hparse. unfold Login. rewrite HPost.
  unfold ResponseJSON, decodeResponse. rewrite HBody. simpl.
  unfold json_Unmarshal. rewrite Hparse. simpl. done.
Qed.

(** C4 on the code: a response with a status in the 2xx range whose body is
    a JSON object with an object [data] that has no [ticket] does not make
    [Login] return an error: the call panics in the type assertion on the
    missing field.  The Session is as before. *)
Theorem Login_panics_without_ticket (s : @Session World Conn)
    username password otp (st st1 : @Proc World) (resp : http_Response)
    body members dat :
  Post' s "/access/ticket" None (Some (Headers s))
    (Some (loginBody range Sprint Values_Encode username password otp))
    (setDebug false st) = (Some resp, None, st1) →
  200 ≤ StatusCode resp ≤ 299 →
  Body resp = Some (bufferedBody body) →
  json_parse body = inl (JObject members) →
  member "data" members = Some (JObject dat) →
  isOne ParseFloat (member "NeedTFA" dat) = false →
  member "ticket" dat = None →
  Login' s username password otp st =
    (Panics "interface conversion: interface {} is nil, not string", s,
     setDebug (Debug st) st1).
Proof.
  intros HPost _ HBody Hparse Hdata Htfa Hticket.
  rewrite (Login_on_response s username password otp st st1 resp body members)
    by done.
  by rewrite Hdata, Htfa, Hticket.
Qed.

(** When the body has no [data] at all, [Login] returns the error for an
    invalid login response. *)
Lemma Login_rejects_missing_data (s : @Session World Conn)
    username password otp (st st1 : @Proc World) (resp : http_Response)
    body members :
  Post' s "/access/ticket" None (Some (Headers s))
    (Some (loginBody range Sprint Values_Encode username password otp))
    (setDebug false st) = (Some resp, None, st1) →
  Body resp = Some (bufferedBody body) →
  json_parse body = inl (JObject members) →
  member "data" members = None →
  Login' s username password otp st =
    (Returns (Some ("invalid login response:" +:+ nl +:+ "-----" +:+ nl
                      +:+ DumpResponse resp +:+ nl +:+ "-----")), s,
     setDebug (Debug st) st1).
Proof.
  intros HPost HBody Hparse Hdata.
  rewrite (Login_on_response s username password otp st st1 resp body members)
    by done.
  by rewrite Hdata.
Qed.

End LoginFacts.

Lemma Login_panics_without_ticket_witness :
  Login sampleRange printAll sampleUrlError sampleRecv sampleClose sampleSprint
    sampleEncode sampleParse sampleTypeError anyRequestLine sampleDump
    sampleDump id sampleFloat
    (sampleSession (sampleServer "200 OK" 200 emptyDataText))
    "root@pam" "secret" EmptyString sampleProc
  = (Panics "interface conversion: interface {} is nil, not string",
     sampleSession (sampleServer "200 OK" 200 emptyDataText),
     setDebug false
       (Post sampleRange printAll sampleUrlError sampleRecv sampleClose
          sampleEncode anyRequestLine sampleDump sampleDump id
          (sampleSession (sampleServer "200 OK" 200 emptyDataText))
          "/access/ticket" None (Some 1%nat)
          (Some (loginBody sampleRange sampleSprint sampleEncode
                   "root@pam" "secret" EmptyString))
          (setDebug false sampleProc)).2).
Proof.
  eapply (Login_panics_without_ticket sampleRange printAll sampleUrlError
            sampleRecv sampleClose sampleSprint sampleEncode sampleParse
            sampleTypeError anyRequestLine sampleDump sampleDump id sampleFloat
            (sampleSession (sampleServer "200 OK" 200 emptyDataText))
            "root@pam" "secret" EmptyString sampleProc _ _ emptyDataText
            [("data", JObject [])] []).
  - vm_compute. reflexivity.
  - simpl. lia.
  - reflexivity.
  - reflexivity.
  - reflexivity.
  - reflexivity.
  - reflexivity.
Defined.
(** ** The typed decoder *)

Section TypedFacts.

Context {World Conn T : Type}.
Context (recv : Conn → World → (string + error) * World).
Context (json_parse : string → JSON + error) (typeError : JSON → string → error).
Context (equalFold : string → string → bool).
Context (store : JSON → T → T * option error).

Local Abbreviation TypedResponse' :=
  (TypedResponse recv json_parse typeError equalFold store).

Lemma envelope_not_result (a b : string) :
  "error reading response envelope: " +:+ a ≠ "error unmarshalling result " +:+ b.
Proof. done. Qed.

(** C5, as amended: when the body of the response is the JSON text of an
    object whose only member is [data], an object whose only member is
    [result], the typed decoder stores exactly the value of [result] into
    the destination, and an error of that storing comes back as an error of
    the result.  When [data] is the object without members, the decoder
    fails: the destination is as before and the error is the error of the
    result, for an empty input, not the error of the envelope.  The error of
    the envelope is what a body that is no JSON text gives.  No error is of
    both kinds. *)
Theorem TypedResponse_unwraps_result (resp : @http_Response Conn)
    (reader reader' : @ReadCloser Conn) (body : string) (v : T)
    (st st' : @Proc World) :
  Body resp = Some reader →
  io_ReadAll recv reader st = (inl body, reader', st') →
  (∀ result,
      json_parse body = inl (JObject [("data", JObject [("result", result)])]) →
      TypedResponse' resp v st =
        ((store result v).1,
         (λ err, "error unmarshalling result " +:+ err) <$> (store result v).2,
         withBody resp reader', st'))
  ∧ (json_parse body = inl (JObject [("data", JObject [])]) →
     TypedResponse' resp v st =
       (v, Some "error unmarshalling result unexpected end of JSON input",
        withBody resp reader', st'))
  ∧ (∀ cause,
       json_parse body = inr cause →
       TypedResponse' resp v st =
         (v, Some ("error reading response envelope: " +:+ cause),
          withBody resp reader', st'))
  ∧ ∀ a b : string,
      "error reading response envelope: " +:+ a
      ≠ "error unmarshalling result " +:+ b.
Proof.
  intros HBody Hread. unfold TypedResponse, decodeResponse.
  rewrite HBody, Hread. unfold json_Unmarshal. split_and!.
  - intros result ->. cbn -[String.append]. 
    destruct (store result v) as [v' [err |]]; done.
  - intros ->. by cbn -[String.append].
  - intros cause ->. done.
  - apply envelope_not_result.
Qed.

End TypedFacts.

Lemma TypedResponse_unwraps_result_witness :
  TypedResponse sampleRecv sampleParse sampleTypeError sampleFold storeX
    {| Status := "200 OK"; StatusCode := 200;
       Body := Some (bufferedBody resultText) |} 0 sampleProc
  = (1, None,
     {| Status := "200 OK"; StatusCode := 200;
        Body := Some (bufferedBody EmptyString) |}, sampleProc).
Proof.
  exact (proj1
           (TypedResponse_unwraps_result sampleRecv sampleParse sampleTypeError
              sampleFold storeX
              {| Status := "200 OK"; StatusCode := 200;
                 Body := Some (bufferedBody resultText) |}
              (bufferedBody resultText) (bufferedBody EmptyString) resultText
              0 sampleProc sampleProc eq_refl eq_refl)
           (JObject [("x", JNumber "1")]) eq_refl).
Defined.

(** C5, as stated, fails: for the body whose [data] is the empty object the
    error of the typed decoder is not the error of the envelope. *)
Lemma TypedResponse_empty_data_result_error :
  ∃ err resp',
    TypedResponse sampleRecv sampleParse sampleTypeError sampleFold storeX
      {| Status := "200 OK"; StatusCode := 200;
         Body := Some (bufferedBody emptyDataText) |} 0 sampleProc
    = (0, Some err, resp', sampleProc)
    ∧ err = "error unmarshalling result unexpected end of JSON input"
    ∧ ∀ cause, err ≠ "error reading response envelope: " +:+ cause.
Proof.
  eexists _, _. split; [reflexivity |]. split; [done |]. intros cause. done.
Qed.
(** ** The claims on the encoder, on Do and on NewSession *)

(** C6: for every parameter mapping, whatever the order in which the loop
    visits it, [ParamsToValuesWithAllEmpty] is the encoder of the spec: a
    boolean becomes [1] or [0], any other value its default string; in the
    default mode a key whose string is empty is left out unless it is in
    the allow-list, and with allow-all-empty every key is kept. *)
Theorem ParamsToValuesWithAllEmpty_is_specEncoder {Opaque : Type}
    (range : ∀ A : Type, gmap string A → list (string * A))
    (Sprint : Opaque → string) (params : gmap string (@any Opaque))
    (allowedEmpty : list string) (allowEmpty : bool) :
  ranges params (range _ params) →
  ParamsToValuesWithAllEmpty range Sprint params allowedEmpty allowEmpty
  = specEncoder Sprint params allowedEmpty allowEmpty.
Proof.
  intros [Hmap Hnd]%ranges_list_to_map. apply map_eq. intros k.
  unfold ParamsToValuesWithAllEmpty, encodeParams.
  rewrite encodeParams_lookup, specEncoder_lookup by done.
  by rewrite Hmap, lookup_empty.
Qed.

Lemma ParamsToValuesWithAllEmpty_is_specEncoder_witness :
  ranges sampleParams (sampleRange _ sampleParams)
  ∧ ParamsToValuesWithAllEmpty sampleRange sampleSprint sampleParams
      ["comment"] false
    = {[ "force" := ["1"]; "comment" := [EmptyString]; "vmid" := ["100"] ]}.
Proof.
  split; [apply ranges_map_to_list |].
  rewrite (ParamsToValuesWithAllEmpty_is_specEncoder sampleRange sampleSprint
             sampleParams ["comment"] false (ranges_map_to_list sampleParams)).
  by vm_compute.
Defined.

Lemma Do_buffers_body_once_witness :
  ∃ resp0 body0 st3 body0' st4 respBody,
    Client_Do sampleRange printAll sampleUrlError
      (httpClient (sampleSession (sampleServer "200 OK" 200 "pong"))) badRequest
      (addHeaders (sampleRange _ (headerAt 1%nat mergeProc)) 0%nat mergeProc)
      = (inl (resp0, body0), st3)
    ∧ io_ReadAll sampleRecv body0 st3 = (inl respBody, body0', st4)
    ∧ Body {| Status := "200 OK"; StatusCode := 200;
              Body := Some (@bufferedBody string "pong") |}
      = Some (bufferedBody respBody)
    ∧ ∀ st0 : @Proc nat,
        io_ReadAll sampleRecv (bufferedBody respBody) st0
          = (inl respBody, bufferedBody EmptyString, st0)
        ∧ io_ReadAll sampleRecv (bufferedBody EmptyString) st0
          = (inl EmptyString, bufferedBody EmptyString, st0).
Proof.
  eapply (Do_buffers_body_once sampleRange printAll sampleUrlError sampleRecv
            sampleClose sampleDump sampleDump id
            (sampleSession (sampleServer "200 OK" 200 "pong"))
            badRequest mergeProc).
  vm_compute. reflexivity.
Defined.

(** C7, as stated, fails: the body of the response that [Do] returns for
    the answer [pong] gives [pong] when it is read to its end, and nothing
    when it is read to its end again. *)
Lemma Do_body_second_read_empty :
  ∃ resp st' body1,
    Do sampleRange printAll sampleUrlError sampleRecv sampleClose sampleDump
      sampleDump id (sampleSession (sampleServer "200 OK" 200 "pong"))
      badRequest mergeProc = (Some resp, None, st')
    ∧ Body resp = Some (bufferedBody "pong")
    ∧ io_ReadAll sampleRecv (bufferedBody "pong") st' = (inl "pong", body1, st')
    ∧ io_ReadAll sampleRecv body1 st' = (inl EmptyString, body1, st')
    ∧ "pong" ≠ EmptyString.
Proof.
  eexists _, _, _. split; [vm_compute; reflexivity |].
  split_and!; [reflexivity | reflexivity | reflexivity | done].
Qed.

Lemma Do_session_headers_override_witness :
  ranges (headerAt 1%nat mergeProc) (sampleRange _ (headerAt 1%nat mergeProc))
  ∧ let '(_, _, st') :=
      Do sampleRange printAll sampleUrlError sampleRecv sampleClose sampleDump
        sampleDump id (sampleSession (sampleServer "200 OK" 200 "pong"))
        badRequest mergeProc in
    let merged :=
      sessionFirst (headerAt 1%nat mergeProc) (headerAt 0%nat mergeProc) in
    (∀ key, headerAt 0%nat st' !! key = merged key)
    ∧ ∃ new, sent st' = sent mergeProc ++ new
        ∧ Forall (λ d, ∀ key, wHeader d.2 !! key = merged key) new.
Proof.
  split; [apply ranges_map_to_list |].
  apply (Do_session_headers_override sampleRange printAll sampleUrlError
           sampleRecv sampleClose sampleDump sampleDump id
           (sampleSession (sampleServer "200 OK" 200 "pong"))
           badRequest mergeProc).
  apply ranges_map_to_list.
Defined.

Section NewSessionFacts.

Context {World Conn TLSConfig ProxyURL : Type}.
Context (range : ∀ A : Type, gmap string A → list (string * A)).
Context (isPrintTable : Z → bool) (urlError : string → string → error → error).
Context (recv : Conn → World → (string + error) * World).
Context (closeConn : Conn → World → World).
Context (DumpRequestOut : Wire → string).
Context (DumpResponse : @http_Response Conn → string).
Context (fmt_Errorf : string → error).
Context (http_Transport : TLSConfig → option ProxyURL → @RoundTripFunc World Conn).
Context (url_ParseRequestURI : string → ProxyURL + error).
Context (Host : ProxyURL → string) (net_SplitHostPort : string → option error).

Lemma NewSession_secure apiUrl proxyString tls (st0 st1 : @Proc World) s :
  NewSession http_Transport url_ParseRequestURI Host net_SplitHostPort
    apiUrl None proxyString tls st0 = (inl s, st1) →
  ∃ underlying, Transport (httpClient s) = secureTransport underlying.
Proof.
  unfold NewSession. intros H.
  repeat case_match; simplify_eq; simpl; by eexists.
Qed.

(** C8, as amended: on a Session that [NewSession] has made with a client
    of its own (no client given by the caller), and on any Session with that
    client, the header validator runs before the transport: when a value of
    the headers of the request, those of the Session included, has a control
    character, [Do] returns no response and the error of the validator, and
    nothing reaches the underlying transport; otherwise the request is
    handed to it.  A client that the caller gives becomes the client of the
    Session as it is. *)
Theorem NewSession_validates_before_transport (apiUrl proxyString : string)
    (hclient : option (@Client World Conn)) (tls : TLSConfig)
    (st0 st1 : @Proc World) (s : @Session World Conn) :
  NewSession http_Transport url_ParseRequestURI Host net_SplitHostPort
    apiUrl hclient proxyString tls st0 = (inl s, st1) →
  (∀ c, hclient = Some c → httpClient s = c)
  ∧ (hclient = None →
     ∀ (s' : @Session World Conn) (req : http_Request) (st : @Proc World),
       httpClient s' = httpClient s →
       let w :=
         wireOf req
           (addHeaders (range _ (headerAt (Headers s') st)) (ReqHeader req) st) in
       ranges (wHeader w) (range _ (wHeader w)) →
       let '(resp, err, st') :=
         Do range isPrintTable urlError recv closeConn DumpRequestOut
           DumpResponse fmt_Errorf s' req st in
       (offending (wHeader w) →
          resp = None
          ∧ (∃ cause,
               err = Some (urlError (Method req) (URL req)
                             ("invalid header: " +:+ cause)))
          ∧ sent st' = sent st ∧ net st' = net st)
       ∧ (¬ offending (wHeader w) → sent st' = sent st ++ [(Debug st, w)])).
Proof.
  intros Hnew. split.
  - intros c ->. unfold NewSession in Hnew.
    destruct (newHeader st0). by injection Hnew as <- _.
  - intros ->. apply NewSession_secure in Hnew as [underlying Hsec].
    intros s' req st Hclient.
    apply (Do_secure range isPrintTable urlError recv closeConn DumpRequestOut
             DumpResponse fmt_Errorf s' underlying req st).
    by rewrite Hclient.
Qed.

End NewSessionFacts.

Lemma offending_sampleBad : offending sampleBad.
Proof.
  exists "X-Token", ["ab" +:+ nl +:+ "cd"], ("ab" +:+ nl +:+ "cd").
  split_and!; [done | by left |]. exists 10.
  split; [vm_compute; by do 2 right; left | unfold isControl; lia].
Qed.
Lemma NewSession_validates_before_transport_witness :
  NewSession sampleTransportOf sampleParseURI sampleHost sampleSplit
    "https://pve:8006/api2/json" None EmptyString tt badProc
  = (inl secureSample, (newHeader badProc).2)
  ∧ offending sampleBad
  ∧ let '(resp, err, st') :=
      Do sampleRange printAll sampleUrlError sampleRecv sampleClose sampleDump
        sampleDump id secureSample badRequest (newHeader badProc).2 in
    resp = None ∧ is_Some err ∧ sent st' = [] ∧ net st' = 0%nat.
Proof.
  split; [reflexivity |]. split; [apply offending_sampleBad |].
  pose proof (proj2
                (NewSession_validates_before_transport sampleRange printAll
                   sampleUrlError sampleRecv sampleClose sampleDump sampleDump
                   id sampleTransportOf sampleParseURI sampleHost sampleSplit
                   "https://pve:8006/api2/json" EmptyString None tt badProc
                   (newHeader badProc).2 secureSample eq_refl)
                eq_refl secureSample badRequest (newHeader badProc).2 eq_refl
                (ranges_map_to_list _)) as H.
  destruct (Do _ _ _ _ _ _ _ _ _ _ _) as [[resp err] st'].
  destruct H as [H _].
  destruct (H offending_sampleBad) as (-> & [cause ->] & -> & ->).
  split_and!; [done | by eexists | done | done].
Defined.

(** C8, as stated, fails: on the Session that [NewSession] makes with a
    client of the caller, [Do] hands a request with a control character in
    a header value to the transport of that client. *)
Lemma NewSession_caller_client_not_validated :
  NewSession sampleTransportOf sampleParseURI sampleHost sampleSplit
    "https://pve:8006/api2/json" (Some callerClient) EmptyString tt badProc
  = (inl callerSample, (newHeader badProc).2)
  ∧ offending sampleBad
  ∧ ∃ resp st' w,
      Do sampleRange printAll sampleUrlError sampleRecv sampleClose sampleDump
        sampleDump id callerSample badRequest (newHeader badProc).2
      = (Some resp, None, st')
      ∧ sent st' = [(false, w)] ∧ wHeader w = sampleBad ∧ net st' = 1%nat.
Proof.
  split; [reflexivity |]. split; [apply offending_sampleBad |].
  eexists _, _, _. split; [vm_compute; reflexivity |].
  split_and!; reflexivity.
Qed.
(** ** The header map of the Session is the header map of the login request *)

Section SharedHeaders.

Context {World Conn Opaque : Type}.
Context (range : ∀ A : Type, gmap string A → list (string * A)).
Context (isPrintTable : Z → bool) (urlError : string → string → error → error).
Context (recv : Conn → World → (string + error) * World).
Context (closeConn : Conn → World → World).
Context (Sprint : Opaque → string) (Values_Encode : Header → string).
Context (json_parse : string → JSON + error) (typeError : JSON → string → error).
Context (requestLineError : string → string → option error).
Context (DumpRequestOut : Wire → string).
Context (DumpResponse : @http_Response Conn → string).
Context (fmt_Errorf : string → error) (ParseFloat : string → float).

Lemma NewRequest_shares_headers (s : @Session World Conn) method url h body
    (st : @Proc World) :
  method ≠ EmptyString → requestLineError method url = None →
  ∃ req st',
    NewRequest requestLineError s method url (Some h) body st = (inl req, st')
    ∧ ReqHeader req = h
    ∧ headerAt h st' = attachAuth s (headerAt h st).
Proof.
  intros Hm%String.eqb_neq Hline. unfold NewRequest, http_NewRequest.
  rewrite Hm, Hline. pose proof (headerAt_newHeader h st) as Hnew.
  destruct (newHeader st) as [h0 st0]. simpl in Hnew. unfold attachAuth.
  repeat case_match; eexists _, _; (split; [reflexivity |]);
    (split; [reflexivity |]); simpl;
    by rewrite ?headerAt_setHeader, Hnew.
Qed.

Lemma heap_Do (s : @Session World Conn) req (st : @Proc World) :
  ranges (headerAt (Headers s) st) (range _ (headerAt (Headers s) st)) →
  ReqHeader req = Headers s →
  headerAt (Headers s)
    (Do range isPrintTable urlError recv closeConn DumpRequestOut DumpResponse
       fmt_Errorf s req st).2
  = headerAt (Headers s) st.
Proof.
  intros Hr Hreq. pose proof (Do_sends range isPrintTable urlError recv
                                closeConn DumpRequestOut DumpResponse
                                fmt_Errorf s req st) as [Hheap _].
  simpl in Hheap. unfold headerAt at 1. rewrite <- Hheap.
  fold (headerAt (Headers s)
          (addHeaders (range _ (headerAt (Headers s) st)) (ReqHeader req) st)).
  rewrite Hreq.
  rewrite (headerAt_addHeaders_ranges (headerAt (Headers s) st)) by done.
  apply (idemp_L (∪)).
Qed.

(** [Login] hands the header map of the Session itself to [Post], so what
    [NewRequest] and [Request] set on the request stays among the headers
    of the Session. *)
Theorem Login_writes_session_headers (s : @Session World Conn)
    (username password otp : string) (st : @Proc World) :
  requestLineError "POST" (ApiUrl s +:+ "/access/ticket") = None →
  let h :=
    <["Accept" := ["application/json"]]>
      (attachAuth s (headerAt (Headers s) st)) in
  ranges h (range _ h) →
  let '(_, _, st') :=
    Login range isPrintTable urlError recv closeConn Sprint Values_Encode
      json_parse typeError requestLineError DumpRequestOut DumpResponse
      fmt_Errorf ParseFloat s username password otp st in
  headerAt (Headers s) st' = h.
Proof.
  intros Hline h Hr. unfold Login, Post, Request.
  destruct (NewRequest_shares_headers s "POST" (ApiUrl s +:+ "/access/ticket")
              (Headers s)
              (Some (loginBody range Sprint Values_Encode username password otp))
              (setDebug false st) ltac:(done) Hline)
    as (req & st0 & -> & Hreq & Hh0).
  set (st1 := setHeader (ReqHeader req) "Accept" ["application/json"] st0).
  assert (headerAt (Headers s) st1 = h) as Hh1.
  { unfold st1. by rewrite Hreq, headerAt_setHeader, Hh0. }
  pose proof (heap_Do s req st1) as HDo. rewrite Hh1 in HDo.
  specialize (HDo Hr Hreq).
  destruct (Do _ _ _ _ _ _ _ _ _ _ _) as [[resp err] st2]. simpl in HDo.
  assert (∀ st3, sameButNet (setDebug (Debug st) st2) st3 →
            headerAt (Headers s) st3 = h) as Hend.
  { intros st3 (_ & Hheap & _). unfold headerAt in *. by rewrite Hheap. }
  destruct err as [err |]; [by apply Hend |].
  destruct resp as [resp |]; [| by apply Hend].
  pose proof (sameButNet_decodeResponse recv json_parse (storeMap typeError)
                resp None (setDebug (Debug st) st2)) as HR.
  unfold ResponseJSON.
  destruct (decodeResponse _ _ _ _ _ _) as [[[jbody err] resp'] st3].
  simpl in HR. specialize (Hend st3 HR).
  repeat case_match; simplify_eq; exact Hend.
Qed.

End SharedHeaders.
(** With the Debug flag set, a login sends its request with the flag off,
    logs nothing and ends with the flag set. *)
Example Login_with_Debug_set :
  ∃ s1 st1 w,
    Login sampleRange printAll sampleUrlError sampleRecv sampleClose
      sampleSprint sampleEncode sampleParse sampleTypeError anyRequestLine
      sampleDump sampleDump id sampleFloat loginSample
      "root@pam" "secret" EmptyString (setDebug true sampleProc)
    = (Returns None, s1, st1)
    ∧ AuthTicket s1 = "T" ∧ CsrfToken s1 = "C"
    ∧ Debug st1 = true ∧ logged st1 = []
    ∧ sent st1 = [(false, w)]
    ∧ wBody w = Some (loginBody sampleRange sampleSprint sampleEncode
                        "root@pam" "secret" EmptyString).
Proof.
  eexists _, _, _. split; [vm_compute; reflexivity |].
  split_and!; reflexivity.
Qed.
Lemma Login_writes_session_headers_witness :
  ranges ({[ "Accept" := ["application/json"] ]} : Header)
    (sampleRange _ ({[ "Accept" := ["application/json"] ]} : Header))
  ∧ let '(_, _, st') :=
      Login sampleRange printAll sampleUrlError sampleRecv sampleClose
        sampleSprint sampleEncode sampleParse sampleTypeError anyRequestLine
        sampleDump sampleDump id sampleFloat loginSample
        "root@pam" "secret" EmptyString sampleProc in
    headerAt 1%nat st' = {[ "Accept" := ["application/json"] ]}.
Proof.
  split; [apply ranges_map_to_list |].
  apply (Login_writes_session_headers sampleRange printAll sampleUrlError
           sampleRecv sampleClose sampleSprint sampleEncode sampleParse
           sampleTypeError anyRequestLine sampleDump sampleDump id sampleFloat
           loginSample "root@pam" "secret" EmptyString sampleProc eq_refl).
  apply ranges_map_to_list.
Defined.

(** A Session logs in twice and is then given a token.  The second login
    has left the cookie and the CSRF token of the first among the headers
    of the Session, and [Do] puts them over what [NewRequest] attaches: the
    next request is sent with the cookie, not with the token. *)
Example second_login_leaves_cookie_in_session :
  ∃ s1 st1 s2 st2,
    Login sampleRange printAll sampleUrlError sampleRecv sampleClose
      sampleSprint sampleEncode sampleParse sampleTypeError anyRequestLine
      sampleDump sampleDump id sampleFloat loginSample
      "root@pam" "secret" EmptyString sampleProc = (Returns None, s1, st1)
    ∧ Login sampleRange printAll sampleUrlError sampleRecv sampleClose
        sampleSprint sampleEncode sampleParse sampleTypeError anyRequestLine
        sampleDump sampleDump id sampleFloat s1
        "root@pam" "secret" EmptyString st1 = (Returns None, s2, st2)
    ∧ AuthTicket s2 = "T"
    ∧ headerAt (Headers s2) st2 !! "Authorization" = Some ["PVEAuthCookie=T"]
    ∧ headerAt (Headers s2) st2 !! "CSRFPreventionToken" = Some ["C"]
    ∧ ∃ resp st3 w,
        Request sampleRange printAll sampleUrlError sampleRecv sampleClose
          sampleEncode anyRequestLine sampleDump sampleDump id
          (SetAPIToken s2 "root@pam!id" "uuid") "GET" "/version"
          None None None st2 = (Some resp, None, st3)
        ∧ last (sent st3) = Some (false, w)
        ∧ wHeader w !! "Authorization" = Some ["PVEAuthCookie=T"]
        ∧ wHeader w !! "CSRFPreventionToken" = Some ["C"].
Proof.
  eexists _, _, _, _. split; [vm_compute; reflexivity |].
  split; [vm_compute; reflexivity |].
  split_and!; try (vm_compute; reflexivity).
  eexists _, _, _. split; [vm_compute; reflexivity |].
  split_and!; vm_compute; reflexivity.
Qed.

(** The validator, which tests runes, refuses a header exactly when a
    value has a control character among its bytes. *)
Theorem validateHeader_fails_iff_control_byte (isPrintTable : Z → bool)
    (h : Header) (order : list (string * list string)) :
  ranges h order →
  is_Some (validateHeader isPrintTable order)
  ↔ ∃ key values v b,
      h !! key = Some values ∧ v ∈ values ∧ b ∈ bytes v ∧ isControl b.
Proof.
  intros Hr. rewrite (validateHeader_fails_iff isPrintTable h order Hr).
  unfold offending. split.
  - intros (key & values & v & ? & ? & (b & ? & ?)%hasControl_bytes).
    by exists key, values, v, b.
  - intros (key & values & v & b & ? & ? & ? & ?).
    exists key, values, v. split_and!; [done.. |].
    apply hasControl_bytes. by exists b.
Qed.

Lemma validateHeader_fails_iff_control_byte_witness :
  ranges sampleBad (map_to_list sampleBad)
  ∧ (is_Some (validateHeader printAll (map_to_list sampleBad))
     ↔ ∃ key values v b,
         sampleBad !! key = Some values ∧ v ∈ values ∧ b ∈ bytes v
         ∧ isControl b).
Proof.
  split; [apply ranges_map_to_list |].
  apply (validateHeader_fails_iff_control_byte printAll sampleBad).
  apply ranges_map_to_list.
Defined.
(** * Further properties of the session layer *)

(** ** Do: what it returns, closes and logs *)

Section DoResults.

Context {World Conn : Type}.
Implicit Types (st : @Proc World).
Context (range : ∀ A : Type, gmap string A → list (string * A)).
Context (isPrintTable : Z → bool) (urlError : string → string → error → error).
Context (recv : Conn → World → (string + error) * World).
Context (closeConn : Conn → World → World).
Context (DumpRequestOut : Wire → string).
Context (DumpResponse : @http_Response Conn → string).
Context (fmt_Errorf : string → error).

Local Abbreviation Do' :=
  (Do range isPrintTable urlError recv closeConn DumpRequestOut DumpResponse
     fmt_Errorf).

Lemma status_test code :
  (code <? 200) || (299 <? code) = false ↔ 200 ≤ code ≤ 299.
Proof. rewrite orb_false_iff, !Z.ltb_ge. lia. Qed.

(** The results of [Do]. *)
Lemma Do_result (s : @Session World Conn) (req : http_Request)
    (st : @Proc World) :
  let '(resp, err, _) := Do' s req st in
  match resp with
  | None => is_Some err
  | Some r =>
      (∃ respBody, Body r = Some (bufferedBody respBody))
      ∧ (200 ≤ StatusCode r ≤ 299 → err = None)
      ∧ (¬ 200 ≤ StatusCode r ≤ 299 → err = Some (fmt_Errorf (Status r)))
  end.
Proof.
  unfold Do.
  destruct (Client_Do _ _ _ _ _ _) as [[[resp0 body] | err0] st3]; [| done].
  destruct (io_ReadAll recv body st3) as [[[respBody | err0] body'] st4];
    [| done].
  destruct (_ || _) eqn:Hcode; simpl in Hcode.
  - split_and!; [by eexists | | done].
    intros Hok%status_test. simpl in Hok. congruence.
  - apply status_test in Hcode. split_and!; [by eexists | done | done].
Qed.

(** [Do] returns a response or an error, never neither.  A response comes
    with its body in memory; it comes without error exactly when its status
    code is from 200 to 299, and otherwise with the error made of its
    status line. *)
Theorem Do_returns_response_or_error (s : @Session World Conn)
    (req : http_Request) (st : @Proc World) :
  let '(resp, err, _) := Do' s req st in
  match resp with
  | None => is_Some err
  | Some r =>
      (∃ respBody, Body r = Some (bufferedBody respBody))
      ∧ (200 ≤ StatusCode r ≤ 299 → err = None)
      ∧ (¬ 200 ≤ StatusCode r ≤ 299 → err = Some (fmt_Errorf (Status r)))
  end.
Proof. apply Do_result. Qed.

(** [Do] closes the body it was given exactly when it has read it to its
    end: when the read fails, [Do] returns the error of the read and no
    response, and the process is as the failed read left it, the body
    unclosed. *)
Theorem Do_closes_after_read_only (s : @Session World Conn)
    (req : http_Request) (st st3 : @Proc World) (resp0 : http_Response)
    (body0 : @ReadCloser Conn) :
  let st1 := addHeaders (range _ (headerAt (Headers s) st)) (ReqHeader req) st in
  let st2 :=
    if Debug st1 then
      log_Printf (">>>>>>>>>> REQUEST:" +:+ nl +:+ DumpRequestOut (wireOf req st1)) st1
    else st1 in
  Client_Do range isPrintTable urlError (httpClient s) req st2
    = (inl (resp0, body0), st3) →
  (∀ respBody body' st4,
      io_ReadAll recv body0 st3 = (inl respBody, body', st4) →
      net (Do' s req st).2 = net (Close closeConn body' st4))
  ∧ (∀ err body' st4,
       io_ReadAll recv body0 st3 = (inr err, body', st4) →
       Do' s req st = (None, Some err, st4)).
Proof.
  intros st1 st2 Hclient. unfold Do. fold st1. fold st2. rewrite Hclient.
  split.
  - intros respBody body' st4 ->.
    set (st5 := Close closeConn body' st4).
    assert (∀ line, net (if Debug st5 then log_Printf line st5 else st5) = net st5)
      as Hlog by (intros; by destruct (Debug st5)).
    destruct (_ || _); simpl; apply Hlog.
  - by intros err body' st4 ->.
Qed.

Lemma logged_Client_Do (c : @Client World Conn) req st :
  logged (Client_Do range isPrintTable urlError c req st).2 = logged st.
Proof.
  unfold Client_Do, RoundTrip, dispatch.
  repeat case_match; simplify_eq; done.
Qed.

Lemma Debug_Client_Do (c : @Client World Conn) req st :
  Debug (Client_Do range isPrintTable urlError c req st).2 = Debug st.
Proof.
  unfold Client_Do, RoundTrip, dispatch.
  repeat case_match; simplify_eq; done.
Qed.

Lemma logged_addHeaders order dst st : logged (addHeaders order dst st) = logged st.
Proof.
  revert st. induction order as [|kv order IH]; intros st; [done |].
  by rewrite addHeaders_cons, IH.
Qed.

(** With the Debug flag off [Do] logs nothing.  With the flag on it logs
    the dump of the request, body included, before the round trip, and
    after it the dump of the response when it returns one, and nothing
    else. *)
Theorem Do_logs_request_and_result (s : @Session World Conn)
    (req : http_Request) (st : @Proc World) :
  let st1 := addHeaders (range _ (headerAt (Headers s) st)) (ReqHeader req) st in
  let '(resp, _, st') := Do' s req st in
  (Debug st = false → logged st' = logged st)
  ∧ (Debug st = true →
     logged st' =
       logged st
       ++ (">>>>>>>>>> REQUEST:" +:+ nl +:+ DumpRequestOut (wireOf req st1))
       :: match resp with
          | Some r => ["<<<<<<<<<< RESULT:" +:+ nl +:+ DumpResponse r]
          | None => []
          end).
Proof.
  intros st1. unfold Do. fold st1.
  pose proof (follows_addHeaders (range _ (headerAt (Headers s) st))
                (ReqHeader req) st) as [Hd1 _]. fold st1 in Hd1.
  pose proof (logged_addHeaders (range _ (headerAt (Headers s) st))
                (ReqHeader req) st) as Hl1. fold st1 in Hl1.
  set (request := ">>>>>>>>>> REQUEST:" +:+ nl +:+ DumpRequestOut (wireOf req st1)).
  set (st2 := if Debug st1 then _ else st1).
  assert (Debug st2 = Debug st
          ∧ logged st2 = logged st ++ (if Debug st then [request] else []))
    as [Hd2 Hl2].
  { unfold st2. rewrite <- Hd1, <- Hl1.
    destruct (Debug st1) eqn:E; simpl; by rewrite ?E, ?app_nil_r. }
  assert (∀ (resp : option (@http_Response Conn)) st',
    logged st' = logged st2 ++
      (if Debug st then
         match resp with
         | Some r => ["<<<<<<<<<< RESULT:" +:+ nl +:+ DumpResponse r]
         | None => []
         end
       else []) →
    (Debug st = false → logged st' = logged st)
    ∧ (Debug st = true →
       logged st' =
         logged st ++ request
         :: match resp with
            | Some r => ["<<<<<<<<<< RESULT:" +:+ nl +:+ DumpResponse r]
            | None => []
            end)) as Hfin.
  { intros resp st' ->. rewrite Hl2.
    split; intros ->; by rewrite <- app_assoc, ?app_nil_r. }
  pose proof (logged_Client_Do (httpClient s) req st2) as Hl3.
  pose proof (Debug_Client_Do (httpClient s) req st2) as Hd3.
  destruct (Client_Do _ _ _ _ _ st2) as [[[resp0 body] | err0] st3];
    simpl in Hl3, Hd3.
  - pose proof (sameButNet_io_ReadAll recv body st3) as (Hd4 & _ & Hl4 & _).
    destruct (io_ReadAll recv body st3) as [[[respBody | err0] body'] st4];
      simpl in Hd4, Hl4.
    + pose proof (sameButNet_Close closeConn body' st4) as (Hd5 & _ & Hl5 & _).
      set (st5 := Close closeConn body' st4) in *.
      set (r := withBody resp0 (bufferedBody respBody)).
      set (st6 := if Debug st5 then _ else st5).
      assert (logged st6 =
              logged st2 ++ (if Debug st then
                               ["<<<<<<<<<< RESULT:" +:+ nl +:+ DumpResponse r]
                             else [])) as Hl6.
      { unfold st6. replace (Debug st5) with (Debug st) by congruence.
        destruct (Debug st); simpl; rewrite ?app_nil_r; congruence. }
      destruct (_ || _); by apply (Hfin (Some r)).
    + apply (Hfin None). destruct (Debug st); rewrite app_nil_r; congruence.
  - apply (Hfin None). destruct (Debug st); rewrite app_nil_r; congruence.
Qed.

End DoResults.
Lemma Do_closes_after_read_only_witness :
  ∃ st',
    Do sampleRange printAll sampleUrlError failingRecv markClose sampleDump
      sampleDump id (sampleSession (sampleServer "200 OK" 200 "pong"))
      badRequest mergeProc = (None, Some "unexpected EOF", st')
    ∧ net st' = 1%nat.
Proof.
  eexists. split.
  - eapply (proj2 (Do_closes_after_read_only sampleRange printAll sampleUrlError
                     failingRecv markClose sampleDump sampleDump id
                     (sampleSession (sampleServer "200 OK" 200 "pong"))
                     badRequest mergeProc _ _ _ ltac:(vm_compute; reflexivity))).
    reflexivity.
  - reflexivity.
Defined.
(** ** Request: the request line, the headers, and what is sent *)

Section RequestFacts.

Context {World Conn : Type}.
Implicit Types (st : @Proc World).
Context (range : ∀ A : Type, gmap string A → list (string * A)).
Context (isPrintTable : Z → bool) (urlError : string → string → error → error).
Context (recv : Conn → World → (string + error) * World).
Context (closeConn : Conn → World → World).
Context (Values_Encode : Header → string).
Context (requestLineError : string → string → option error).
Context (DumpRequestOut : Wire → string).
Context (DumpResponse : @http_Response Conn → string).
Context (fmt_Errorf : string → error).

Local Abbreviation Do' :=
  (Do range isPrintTable urlError recv closeConn DumpRequestOut DumpResponse
     fmt_Errorf).
Local Abbreviation Request' :=
  (Request range isPrintTable urlError recv closeConn Values_Encode
     requestLineError DumpRequestOut DumpResponse fmt_Errorf).

Lemma headerAt_addHeaders_ne order dst l st :
  l ≠ dst → headerAt l (addHeaders order dst st) = headerAt l st.
Proof.
  intros Hne. revert st. induction order as [|kv order IH]; intros st; [done |].
  rewrite addHeaders_cons, IH. by apply headerAt_setHeader_ne.
Qed.

Lemma net_addHeaders order dst st : net (addHeaders order dst st) = net st.
Proof.
  revert st. induction order as [|kv order IH]; intros st; [done |].
  by rewrite addHeaders_cons, IH.
Qed.

Lemma Debug_addHeaders order dst st : Debug (addHeaders order dst st) = Debug st.
Proof.
  revert st. induction order as [|kv order IH]; intros st; [done |].
  by rewrite addHeaders_cons, IH.
Qed.

(** [Do] sends nothing, or the request as it is after the headers of the
    Session have been added. *)
Lemma Do_sent (s : @Session World Conn) req st :
  let st1 := addHeaders (range _ (headerAt (Headers s) st)) (ReqHeader req) st in
  sent (Do' s req st).2 = sent st
  ∨ sent (Do' s req st).2 = sent st ++ [(Debug st, wireOf req st1)].
Proof.
  intros st1. unfold Do. fold st1.
  set (st2 := if Debug st1 then _ else st1).
  assert (sent st2 = sent st ∧ Debug st2 = Debug st ∧ wireOf req st2 = wireOf req st1)
    as (Hs2 & Hd2 & Hw2).
  { unfold st2. rewrite <- (sent_addHeaders (range _ (headerAt (Headers s) st))
                             (ReqHeader req) st),
      <- (Debug_addHeaders (range _ (headerAt (Headers s) st)) (ReqHeader req) st).
    fold st1. split_and!.
    - by destruct (Debug st1).
    - by destruct (Debug st1) eqn:E.
    - apply wireOf_heap. by destruct (Debug st1). }
  assert (sent (Client_Do range isPrintTable urlError (httpClient s) req st2).2
            = sent st
          ∨ sent (Client_Do range isPrintTable urlError (httpClient s) req st2).2
            = sent st ++ [(Debug st, wireOf req st1)]) as H3.
  { unfold Client_Do, RoundTrip. rewrite Hw2.
    destruct (Transport (httpClient s)) as [u | f].
    - destruct (validateHeader _ _); [by left |]. right.
      pose proof (sent_dispatch u (wireOf req st1) st2) as Hsd.
      destruct (dispatch u _ st2) as [[r | e] st3]; simpl in *;
        [destruct (Body r) |]; simpl; congruence.
    - right. pose proof (sent_dispatch f (wireOf req st1) st2) as Hsd.
      destruct (dispatch f _ st2) as [[r | e] st3]; simpl in *;
        [destruct (Body r) |]; simpl; congruence. }
  destruct (Client_Do _ _ _ _ _ st2) as [[[resp0 body] | err0] st3];
    simpl in H3; [| done].
  pose proof (sameButNet_io_ReadAll recv body st3) as (_ & _ & _ & Hs4).
  destruct (io_ReadAll recv body st3) as [[[respBody | err0] body'] st4];
    simpl in Hs4; [| simpl; by rewrite Hs4].
  pose proof (sameButNet_Close closeConn body' st4) as (_ & _ & _ & Hs5).
  set (st5 := Close closeConn body' st4) in *.
  set (st6 := if Debug st5 then _ else st5).
  assert (sent st6 = sent st3) as Hs6.
  { unfold st6. destruct (Debug st5); simpl; congruence. }
  destruct (_ || _); simpl; by rewrite Hs6.
Qed.

(** What [NewRequest] returns when the request line is accepted. *)
Lemma NewRequest_built (s : @Session World Conn) method url headers body st :
  requestLineError (methodOf method) url = None →
  ∃ st',
    NewRequest requestLineError s method url headers body st
    = (inl {| Method := methodOf method; URL := url;
              ReqHeader := headerRef headers st; ReqBody := body |}, st')
    ∧ headerAt (headerRef headers st) st'
      = attachAuth s (givenHeaders headers st)
    ∧ (∀ l, l ≠ headerRef headers st → headerAt l st' = headerAt l st)
    ∧ Debug st' = Debug st ∧ sent st' = sent st ∧ net st' = net st
    ∧ logged st' = logged st.
Proof.
  intros Hline. unfold NewRequest, http_NewRequest. fold (methodOf method).
  rewrite Hline.
  pose proof (headerAt_newHeader (World := World)) as Hkeep.
  pose proof (headerAt_newHeader_new st) as Hnew.
  unfold newHeader in *. simpl in *.
  set (h0 := fresh (dom (heap st))) in *.
  set (st0 := setHeap (<[h0 := ∅]> (heap st)) st) in *.
  assert (headerAt (headerRef headers st) st0 = givenHeaders headers st) as Hgiven.
  { destruct headers as [h |]; simpl; [apply (Hkeep h st) | exact Hnew]. }
  assert (∀ l, headerAt l st0 = headerAt l st) as Hall by (intros l; apply (Hkeep l st)).
  unfold attachAuth.
  destruct headers as [h |]; simpl in *;
    repeat case_match; eexists; (split; [reflexivity |]);
    split_and!; try done; fold h0;
    try (by rewrite ?headerAt_setHeader, ?Hnew, ?Hgiven);
    intros l Hl; by rewrite ?headerAt_setHeader_ne, Hall by done.
Qed.

(** What [Request] does when the request line is accepted: the state in
    which [Do] is called, the request it is called on. *)
Lemma Request_built (s : @Session World Conn) method url params headers body st :
  requestLineError (methodOf method) (targetOf Values_Encode s url params) = None →
  ∃ st1,
    Request' s method url params headers body st
    = Do' s {| Method := methodOf method;
               URL := targetOf Values_Encode s url params;
               ReqHeader := headerRef headers st; ReqBody := body |} st1
    ∧ headerAt (headerRef headers st) st1 = builtHeaders s headers st
    ∧ (∀ l, l ≠ headerRef headers st → headerAt l st1 = headerAt l st)
    ∧ Debug st1 = Debug st ∧ sent st1 = sent st ∧ net st1 = net st
    ∧ logged st1 = logged st.
Proof.
  intros Hline.
  destruct (NewRequest_built s method (targetOf Values_Encode s url params)
              headers body st Hline)
    as (st0 & Hnew & Hhdr & Hkeep & Hd & Hs & Hn & Hl).
  unfold Request. fold (targetOf Values_Encode s url params). rewrite Hnew. simpl.
  eexists. split; [reflexivity |]. split_and!; simpl; try done.
  - unfold builtHeaders. by rewrite headerAt_setHeader, Hhdr.
  - intros l Hne. by rewrite headerAt_setHeader_ne, Hkeep.
Qed.

(** [Request] on a request line that [http.NewRequest] rejects. *)
Lemma Request_rejected (s : @Session World Conn) method url params headers
    body st err :
  requestLineError (methodOf method) (targetOf Values_Encode s url params)
    = Some err →
  Request' s method url params headers body st = (None, Some err, st).
Proof.
  intros Hline. unfold Request, NewRequest, http_NewRequest.
  fold (targetOf Values_Encode s url params). fold (methodOf method).
  by rewrite Hline.
Qed.

(** When [http.NewRequest] rejects the method or the URL, [Request]
    returns its error and no response, and has done nothing: no header map
    is written, nothing is sent or logged. *)
Theorem Request_rejected_does_nothing (s : @Session World Conn) method url
    params headers body st err :
  requestLineError (methodOf method) (targetOf Values_Encode s url params)
    = Some err →
  Request' s method url params headers body st = (None, Some err, st).
Proof. apply Request_rejected. Qed.



(** The headers of what [Request] sends, and the header maps afterwards. *)
Lemma Request_merged (s : @Session World Conn) method url params headers
    body st :
  requestLineError (methodOf method) (targetOf Values_Encode s url params) = None →
  headerRef headers st ≠ Headers s →
  ranges (headerAt (Headers s) st) (range _ (headerAt (Headers s) st)) →
  let st' := (Request' s method url params headers body st).2 in
  let merged := headerAt (Headers s) st ∪ builtHeaders s headers st in
  (sent st' = sent st
   ∨ sent st' = sent st ++
       [(Debug st, {| wMethod := methodOf method;
                      wURL := targetOf Values_Encode s url params;
                      wHeader := merged; wBody := body |})])
  ∧ headerAt (headerRef headers st) st' = merged
  ∧ headerAt (Headers s) st' = headerAt (Headers s) st.
Proof.
  intros Hline Hne Hr st' merged.
  destruct (Request_built s method url params headers body st Hline)
    as (st1 & Hreq & Hhdr & Hkeep & Hd & Hs & _).
  unfold st'. rewrite Hreq. clear st' Hreq.
  set (req := {| Method := methodOf method;
                 URL := targetOf Values_Encode s url params;
                 ReqHeader := headerRef headers st; ReqBody := body |}).
  assert (headerAt (Headers s) st1 = headerAt (Headers s) st) as Hsess
    by (apply Hkeep; congruence).
  pose proof (Do_sends range isPrintTable urlError recv closeConn DumpRequestOut
                DumpResponse fmt_Errorf s req st1) as [Hheap _].
  pose proof (Do_sent s req st1) as Hsent. simpl in Hheap, Hsent.
  rewrite Hsess in Hheap, Hsent.
  assert (headerAt (headerRef headers st)
            (addHeaders (range _ (headerAt (Headers s) st))
               (headerRef headers st) st1) = merged) as Hm.
  { rewrite (headerAt_addHeaders_ranges (headerAt (Headers s) st)) by done.
    unfold merged. by rewrite Hhdr. }
  split_and!.
  - destruct Hsent as [H | H]; [left; congruence | right].
    rewrite H, Hs, Hd. unfold wireOf. simpl. by rewrite Hm.
  - unfold headerAt at 1. rewrite <- Hheap. exact Hm.
  - unfold headerAt at 1. rewrite <- Hheap.
    change (headerAt (Headers s)
              (addHeaders (range _ (headerAt (Headers s) st))
                 (headerRef headers st) st1) = headerAt (Headers s) st).
    rewrite headerAt_addHeaders_ne by congruence. exact Hsess.
Qed.

(** The headers of a request made by [Request] whose header map is not the
    map of the Session: those the caller gave, with the auth headers of
    [NewRequest] and [Accept: application/json] set over them, and the
    headers of the Session set over all of these.  The map of the caller
    holds them afterwards; the map of the Session is as it was. *)
Theorem Request_headers (s : @Session World Conn) method url params headers
    body st :
  requestLineError (methodOf method) (targetOf Values_Encode s url params) = None →
  headerRef headers st ≠ Headers s →
  ranges (headerAt (Headers s) st) (range _ (headerAt (Headers s) st)) →
  let st' := (Request' s method url params headers body st).2 in
  let merged := headerAt (Headers s) st ∪ builtHeaders s headers st in
  (sent st' = sent st
   ∨ sent st' = sent st ++
       [(Debug st, {| wMethod := methodOf method;
                      wURL := targetOf Values_Encode s url params;
                      wHeader := merged; wBody := body |})])
  ∧ headerAt (headerRef headers st) st' = merged
  ∧ headerAt (Headers s) st' = headerAt (Headers s) st.
Proof. apply Request_merged. Qed.

(** ** The verbs *)

Local Abbreviation Post' :=
  (Post range isPrintTable urlError recv closeConn Values_Encode
     requestLineError DumpRequestOut DumpResponse fmt_Errorf).
Local Abbreviation Put' :=
  (Put range isPrintTable urlError recv closeConn Values_Encode
     requestLineError DumpRequestOut DumpResponse fmt_Errorf).

(** [Post] and [Put] after their first lines: a call of [Request] with a
    map that is not the map of the Session. *)
Lemma form_headers (s : @Session World Conn) method url params headers body st :
  requestLineError method (targetOf Values_Encode s url params) = None →
  method ≠ EmptyString →
  match headers with
  | Some h => h ≠ Headers s
  | None => is_Some (heap st !! Headers s)
  end →
  ranges (headerAt (Headers s) st) (range _ (headerAt (Headers s) st)) →
  let '(h, st0) :=
    match headers with
    | Some h => (h, st)
    | None =>
        let '(h, st) := newHeader st in
        (h, setHeader h "Content-Type" ["application/x-www-form-urlencoded"] st)
    end in
  let st' := (Request' s method url params (Some h) body st0).2 in
  let given :=
    match headers with Some h => headerAt h st | None => formType end in
  sent st' = sent st
  ∨ sent st' = sent st ++
      [(Debug st, {| wMethod := method;
                     wURL := targetOf Values_Encode s url params;
                     wHeader := headerAt (Headers s) st
                                ∪ <["Accept" := ["application/json"]]>
                                    (attachAuth s given);
                     wBody := body |})].
Proof.
  intros Hline Hmethod Hshared Hr.
  assert (methodOf method = method) as Hm.
  { unfold methodOf. destruct (String.eqb_spec method EmptyString); done. }
  destruct headers as [h |].
  - pose proof (Request_merged s method url params (Some h) body st) as H.
    rewrite Hm in H. destruct (H Hline Hshared Hr) as (H1 & _). exact H1.
  - unfold newHeader. set (h := fresh (dom (heap st))).
    set (st0 := setHeader h _ _ _).
    assert (h ≠ Headers s) as Hne.
    { intros Heq. apply (is_fresh (dom (heap st))). fold h. rewrite Heq.
      by apply elem_of_dom. }
    assert (headerAt (Headers s) st0 = headerAt (Headers s) st) as Hsess.
    { unfold st0. rewrite headerAt_setHeader_ne by done.
      apply (headerAt_newHeader (Headers s) st). }
    assert (headerAt h st0 = formType) as Hform.
    { unfold st0. rewrite headerAt_setHeader.
      pose proof (headerAt_newHeader_new st) as Hnew. unfold newHeader in Hnew.
      simpl in Hnew. fold h in Hnew. by rewrite Hnew. }
    pose proof (Request_merged s method url params (Some h) body st0) as H.
    rewrite Hm, Hsess in H. destruct (H Hline Hne Hr) as (H1 & _).
    unfold builtHeaders in H1. simpl in H1. rewrite Hform in H1. exact H1.
Qed.

(** [Post] and [Put] send the headers the caller gives; only when the
    caller gives none (a nil pointer) do they send the content type of a
    form.  In both cases the auth headers, [Accept] and the headers of the
    Session are set over them. *)
Theorem Post_Put_form_type_when_no_headers (s : @Session World Conn) url
    params headers body st :
  requestLineError "POST" (targetOf Values_Encode s url params) = None →
  requestLineError "PUT" (targetOf Values_Encode s url params) = None →
  match headers with
  | Some h => h ≠ Headers s
  | None => is_Some (heap st !! Headers s)
  end →
  ranges (headerAt (Headers s) st) (range _ (headerAt (Headers s) st)) →
  let given :=
    match headers with Some h => headerAt h st | None => formType end in
  let sends method st' :=
    sent st' = sent st
    ∨ sent st' = sent st ++
        [(Debug st, {| wMethod := method;
                       wURL := targetOf Values_Encode s url params;
                       wHeader := headerAt (Headers s) st
                                  ∪ <["Accept" := ["application/json"]]>
                                      (attachAuth s given);
                       wBody := body |})] in
  sends "POST" (Post' s url params headers body st).2
  ∧ sends "PUT" (Put' s url params headers body st).2.
Proof.
  intros Hpost Hput Hshared Hr given sends. split.
  - pose proof (form_headers s "POST" url params headers body st Hpost
                  ltac:(done) Hshared Hr) as H.
    unfold Post. by destruct headers.
  - pose proof (form_headers s "PUT" url params headers body st Hput
                  ltac:(done) Hshared Hr) as H.
    unfold Put. by destruct headers.
Qed.


End RequestFacts.
Lemma Request_rejected_does_nothing_witness :
  strictRequestLine (methodOf "GET /") (targetOf sampleEncode
      (sampleSession (sampleServer "200 OK" 200 "pong")) "/version" None)
    = Some "net/http: invalid method"
  ∧ Request sampleRange printAll sampleUrlError sampleRecv sampleClose
      sampleEncode strictRequestLine sampleDump sampleDump id
      (sampleSession (sampleServer "200 OK" 200 "pong")) "GET /" "/version"
      None (Some 0%nat) None mergeProc
    = (None, Some "net/http: invalid method", mergeProc).
Proof.
  split; [reflexivity |].
  apply (Request_rejected_does_nothing sampleRange printAll sampleUrlError
           sampleRecv sampleClose sampleEncode strictRequestLine sampleDump
           sampleDump id). reflexivity.
Defined.

Lemma Request_headers_witness :
  anyRequestLine (methodOf EmptyString) (targetOf sampleEncode
      (sampleSession (sampleServer "200 OK" 200 "pong")) "/version" None) = None
  ∧ headerRef (Some 0%nat) mergeProc
    ≠ Headers (sampleSession (sampleServer "200 OK" 200 "pong"))
  ∧ ranges (headerAt 1%nat mergeProc) (sampleRange _ (headerAt 1%nat mergeProc))
  ∧ let st' :=
      (Request sampleRange printAll sampleUrlError sampleRecv sampleClose
         sampleEncode anyRequestLine sampleDump sampleDump id
         (sampleSession (sampleServer "200 OK" 200 "pong")) EmptyString
         "/version" None (Some 0%nat) None mergeProc).2 in
    sent st' =
      [(false, {| wMethod := "GET";
                  wURL := "https://pve:8006/api2/json/version";
                  wHeader := {[ "Accept" := ["text/plain"];
                                "X-Env" := ["prod"];
                                "X-Call" := ["1"];
                                "Authorization" :=
                                  ["PVEAPIToken=root@pam!id=uuid"] ]};
                  wBody := None |})]
    ∧ headerAt 0%nat st' !! "Accept" = Some ["text/plain"]
    ∧ headerAt 1%nat st' = headerAt 1%nat mergeProc.
Proof.
  pose proof (Request_headers sampleRange printAll sampleUrlError sampleRecv
                sampleClose sampleEncode anyRequestLine sampleDump sampleDump id
                (sampleSession (sampleServer "200 OK" 200 "pong")) EmptyString
                "/version" None (Some 0%nat) None mergeProc eq_refl
                ltac:(simpl; lia) (ranges_map_to_list _)) as (_ & Hmap & Hsess).
  split_and!; [reflexivity | simpl; lia | apply ranges_map_to_list | ].
  cbv zeta. split_and!.
  - vm_compute. reflexivity.
  - unfold headerRef in Hmap. rewrite Hmap. vm_compute. reflexivity.
  - exact Hsess.
Defined.

Lemma Post_Put_form_type_when_no_headers_witness :
  let s := sampleSession (sampleServer "200 OK" 200 "pong") in
  let target := targetOf sampleEncode s "/nodes" None in
  (anyRequestLine "POST" target = None
   ∧ anyRequestLine "PUT" target = None
   ∧ is_Some (heap mergeProc !! Headers s)
   ∧ ranges (headerAt (Headers s) mergeProc)
       (sampleRange _ (headerAt (Headers s) mergeProc)))
  ∧ ∃ w,
      sent (Post sampleRange printAll sampleUrlError sampleRecv sampleClose
              sampleEncode anyRequestLine sampleDump sampleDump id
              s "/nodes" None None (Some "a=b") mergeProc).2 = [(false, w)]
      ∧ wMethod w = "POST"
      ∧ wHeader w = {[ "Accept" := ["text/plain"]; "X-Env" := ["prod"];
                       "Authorization" := ["PVEAPIToken=root@pam!id=uuid"];
                       "Content-Type" := ["application/x-www-form-urlencoded"] ]}.
Proof.
  intros s target.
  assert (is_Some (heap mergeProc !! Headers s)) as Hsome by (by eexists).
  split; [split_and!; [reflexivity | reflexivity | exact Hsome
                       | apply ranges_map_to_list] |].
  destruct (Post_Put_form_type_when_no_headers sampleRange printAll
              sampleUrlError sampleRecv sampleClose sampleEncode anyRequestLine
              sampleDump sampleDump id s "/nodes" None None (Some "a=b")
              mergeProc eq_refl eq_refl Hsome (ranges_map_to_list _))
    as [[H | H] _].
  - vm_compute in H. discriminate H.
  - eexists. split; [exact H |]. split; [reflexivity |].
    vm_compute. reflexivity.
Defined.
(** ** RequestJSON *)

Section RequestJSONFacts.

Context {World Conn : Type}.
Implicit Types (st : @Proc World).
Context (range : ∀ A : Type, gmap string A → list (string * A)).
Context (isPrintTable : Z → bool) (urlError : string → string → error → error).
Context (recv : Conn → World → (string + error) * World).
Context (closeConn : Conn → World → World).
Context (Values_Encode : Header → string).
Context (json_parse : string → JSON + error).
Context (requestLineError : string → string → option error).
Context (DumpRequestOut : Wire → string).
Context (DumpResponse : @http_Response Conn → string).
Context (fmt_Errorf : string → error).

Local Abbreviation Request' :=
  (Request range isPrintTable urlError recv closeConn Values_Encode
     requestLineError DumpRequestOut DumpResponse fmt_Errorf).
Local Abbreviation RequestJSON' :=
  (RequestJSON range isPrintTable urlError recv closeConn Values_Encode
     json_parse requestLineError DumpRequestOut DumpResponse fmt_Errorf).

(** The results of [Request] are those of [Do]. *)
Lemma Request_result (s : @Session World Conn) method url params headers body st :
  let '(resp, err, _) := Request' s method url params headers body st in
  match resp with
  | None => is_Some err
  | Some r =>
      (∃ respBody, Body r = Some (bufferedBody respBody))
      ∧ (200 ≤ StatusCode r ≤ 299 → err = None)
      ∧ (¬ 200 ≤ StatusCode r ≤ 299 → err = Some (fmt_Errorf (Status r)))
  end.
Proof.
  destruct (requestLineError (methodOf method)
              (targetOf Values_Encode s url params)) as [err |] eqn:Hline.
  - by rewrite (Request_rejected range isPrintTable urlError recv closeConn
                  Values_Encode requestLineError DumpRequestOut DumpResponse
                  fmt_Errorf s method url params headers body st err).
  - destruct (Request_built range isPrintTable urlError recv closeConn
                Values_Encode requestLineError DumpRequestOut DumpResponse
                fmt_Errorf s method url params headers body st Hline)
      as (st1 & -> & _).
    apply Do_result.
Qed.

(** [RequestJSON] in terms of [Request]. *)
Lemma RequestJSON_cases {B T : Type} (marshal : B → string + error)
    (store : JSON → T → T * option error) (s : @Session World Conn)
    method url params headers (body : option B) (rc : T) st :
  match marshalled marshal body with
  | inr e =>
      RequestJSON' marshal store s method url params headers body rc st
      = (Returns (rc, None, Some e), st)
  | inl text =>
      let '(resp, err, st1) :=
        Request' s method url params headers (Some text) st in
      match err, resp with
      | Some e, _ =>
          RequestJSON' marshal store s method url params headers body rc st
          = (Returns (rc, resp, Some e), st1)
      | None, Some r =>
          200 ≤ StatusCode r ≤ 299
          ∧ ∃ rbody,
              Body r = Some (bufferedBody rbody)
              ∧ RequestJSON' marshal store s method url params headers body rc st
                = (Returns ((json_Unmarshal json_parse store rbody rc).1,
                            Some (withBody r (bufferedBody EmptyString)),
                            (json_Unmarshal json_parse store rbody rc).2), st1)
      | None, None => False
      end
  end.
Proof.
  unfold RequestJSON, marshalled.
  destruct body as [b |]; [destruct (marshal b) as [text | e]; [| done] |]; simpl.
  all: match goal with
       | |- context [Request' _ _ _ _ _ (Some ?t) _] =>
           pose proof (Request_result s method url params headers (Some t) st) as HR;
           destruct (Request' s method url params headers (Some t) st)
             as [[resp err] st1]
       end.
  all: destruct err as [e |]; [done |].
  all: destruct resp as [r |]; [| by destruct HR].
  all: destruct HR as ((rbody & HB) & _ & Hbad).
  all: split; [destruct (decide (200 ≤ StatusCode r ≤ 299)); [done | by apply Hbad in n] |].
  all: exists rbody; split; [done |]; rewrite HB; simpl.
  all: by destruct (json_Unmarshal json_parse store rbody rc).
Qed.

(** [RequestJSON], and with it [GetJSON] and [PostJSON], returns: the
    reading of the body never meets a nil response.  Without a response
    the destination is untouched and there is an error; without an error
    there is a response with a status code from 200 to 299, whose body has
    been read to its end.  A body that cannot be marshalled is returned as
    that error before anything is sent. *)
Theorem RequestJSON_returns {B T : Type} (marshal : B → string + error)
    (store : JSON → T → T * option error) (s : @Session World Conn)
    method url params headers (body : option B) (rc : T) st :
  let returns (out : Outcome (T * option http_Response * option error)) :=
    ∃ v resp err,
      out = Returns (v, resp, err)
      ∧ (resp = None → v = rc ∧ is_Some err)
      ∧ (err = None →
           ∃ r, resp = Some r ∧ 200 ≤ StatusCode r ≤ 299
                ∧ Body r = Some (bufferedBody EmptyString)) in
  returns (RequestJSON' marshal store s method url params headers body rc st).1
  ∧ returns
      (GetJSON range isPrintTable urlError recv closeConn Values_Encode
         json_parse requestLineError DumpRequestOut DumpResponse fmt_Errorf
         store s url params headers rc st).1
  ∧ returns
      (PostJSON range isPrintTable urlError recv closeConn Values_Encode
         json_parse requestLineError DumpRequestOut DumpResponse fmt_Errorf
         marshal store s url params headers body rc st).1
  ∧ ∀ e, marshalled marshal body = inr e →
         RequestJSON' marshal store s method url params headers body rc st
         = (Returns (rc, None, Some e), st).
Proof.
  intros returns.
  assert (∀ (B' : Type) (marshal' : B' → string + error) method' body',
            returns (RequestJSON' marshal' store s method' url params headers
                       body' rc st).1) as Hall.
  { intros B' marshal' method' body'.
    pose proof (RequestJSON_cases marshal' store s method' url params headers
                  body' rc st) as H.
    destruct (marshalled marshal' body') as [text | e].
    - destruct (Request' s method' url params headers (Some text) st)
        as [[resp err] st1].
      destruct err as [e |].
      + rewrite H. eexists _, _, _. split_and!; [done | | done].
        intros ->. split; [done | by eexists].
      + destruct resp as [r |]; [| done].
        destruct H as (Hcode & rbody & HB & ->).
        eexists _, _, _. split_and!; [done | done |].
        intros _. by eexists.
    - rewrite H. eexists _, _, _. split_and!; [done | | done].
      intros _. split; [done | by eexists]. }
  split_and!; [apply Hall | apply Hall | apply Hall |].
  intros e He.
  pose proof (RequestJSON_cases marshal store s method url params headers
                body rc st) as H.
  by rewrite He in H.
Qed.

(** When the body is marshalled, [RequestJSON] decodes on success only:
    with an error of [Request], a status outside 200 to 299 included, it
    returns the response and the error of [Request] and leaves the
    destination as it was; without one it unmarshals the whole body, which
    is in memory, into the destination, with no further change of the
    process, and returns the response with its body read to the end. *)
Theorem RequestJSON_decodes_on_success_only {B T : Type}
    (marshal : B → string + error) (store : JSON → T → T * option error)
    (s : @Session World Conn) method url params headers (body : option B)
    (rc : T) st text :
  marshalled marshal body = inl text →
  let '(resp, err, st1) :=
    Request' s method url params headers (Some text) st in
  (∀ e, err = Some e →
      RequestJSON' marshal store s method url params headers body rc st
      = (Returns (rc, resp, Some e), st1))
  ∧ (err = None →
       ∃ r rbody,
         resp = Some r ∧ Body r = Some (bufferedBody rbody)
         ∧ RequestJSON' marshal store s method url params headers body rc st
           = (Returns ((json_Unmarshal json_parse store rbody rc).1,
                       Some (withBody r (bufferedBody EmptyString)),
                       (json_Unmarshal json_parse store rbody rc).2), st1)).
Proof.
  intros Hm.
  pose proof (RequestJSON_cases marshal store s method url params headers
                body rc st) as H.
  rewrite Hm in H.
  destruct (Request' s method url params headers (Some text) st)
    as [[resp err] st1].
  split.
  - intros e ->. exact H.
  - intros ->. destruct resp as [r |]; [| done].
    destruct H as (_ & rbody & HB & H). by exists r, rbody.
Qed.

End RequestJSONFacts.
Lemma RequestJSON_decodes_on_success_only_witness :
  marshalled (λ b : string, inl b) (Some "{}") = inl "{}"
  ∧ ∃ r st1,
      RequestJSON sampleRange printAll sampleUrlError sampleRecv sampleClose
        sampleEncode sampleParse anyRequestLine sampleDump sampleDump id
        (λ b : string, inl b) storeX
        (sampleSession (sampleServer "200 OK" 200 resultText))
        "POST" "/nodes" None None (Some "{}") 7 mergeProc
      = (Returns (7, Some r, None), st1)
      ∧ Body r = Some (bufferedBody EmptyString).
Proof.
  split; [reflexivity |].
  pose proof (RequestJSON_decodes_on_success_only sampleRange printAll
                sampleUrlError sampleRecv sampleClose sampleEncode sampleParse
                anyRequestLine sampleDump sampleDump id
                (λ b : string, inl b) storeX
                (sampleSession (sampleServer "200 OK" 200 resultText))
                "POST" "/nodes" None None (Some "{}") 7 mergeProc "{}"
                eq_refl) as H.
  destruct (Request _ _ _ _ _ _ _ _ _ _ _ _ _ _ _ _ _) as [[resp err] st1] eqn:E.
  vm_compute in E. injection E as <- <- <-.
  destruct H as [_ H]. destruct (H eq_refl) as (r & rbody & Hr & HB & HJ).
  injection Hr as <-. injection HB as <-.
  eexists _, _. split; [rewrite HJ; vm_compute; reflexivity | reflexivity].
Defined.
(** ** The encoder of parameters: what is left out, and the modes *)



Section EncoderModes.

Context {Opaque : Type} (Sprint : Opaque → string).
Context (range : ∀ A : Type, gmap string A → list (string * A)).
Implicit Types (params : gmap string (@any Opaque)).

(** The values of a key after the loop, for any order of the [range]. *)
Lemma encoded_lookup params allowedEmpty allowEmpty k :
  ranges params (range _ params) →
  ParamsToValuesWithAllEmpty range Sprint params allowedEmpty allowEmpty !! k =
    match params !! k with
    | Some x =>
        if decide (specKept Sprint allowedEmpty allowEmpty k x)
        then Some [specEncode Sprint x] else None
    | None => None
    end.
Proof.
  intros [Hmap Hnd]%ranges_list_to_map.
  unfold ParamsToValuesWithAllEmpty, encodeParams.
  rewrite encodeParams_lookup by done. by rewrite Hmap, lookup_empty.
Qed.


(** The three modes: with allow-all-empty every key of the parameters is a
    key of the form, whatever the allow-list; the form of the allow-list
    mode is part of it, and the form without an allow-list part of that;
    an allow-list that has every key gives the form of allow-all-empty. *)
Theorem ParamsToValues_modes params allowedEmpty allowedEmpty' :
  ranges params (range _ params) →
  dom (ParamsToValuesWithAllEmpty range Sprint params allowedEmpty true)
    = dom params
  ∧ ParamsToValuesWithAllEmpty range Sprint params allowedEmpty true
    = ParamsToValuesWithAllEmpty range Sprint params allowedEmpty' true
  ∧ ParamsToValuesWithEmpty range Sprint params allowedEmpty
    ⊆ ParamsToValuesWithAllEmpty range Sprint params allowedEmpty' true
  ∧ ParamsToValues range Sprint params
    ⊆ ParamsToValuesWithEmpty range Sprint params allowedEmpty
  ∧ ((∀ k, is_Some (params !! k) → k ∈ allowedEmpty) →
     ParamsToValuesWithEmpty range Sprint params allowedEmpty
     = ParamsToValuesWithAllEmpty range Sprint params allowedEmpty' true).
Proof.
  intros Hr. unfold ParamsToValues, ParamsToValuesWithEmpty.
  assert (∀ allowed k x, params !! k = Some x →
            ParamsToValuesWithAllEmpty range Sprint params allowed true !! k
            = Some [specEncode Sprint x]) as Hall.
  { intros allowed k x Hk. rewrite encoded_lookup, Hk by done.
    rewrite decide_True; [done | by left]. }
  split_and!.
  - apply set_eq. intros k. rewrite !elem_of_dom.
    rewrite encoded_lookup by done.
    destruct (params !! k) as [x |] eqn:Hk; [| by split; intros []].
    rewrite decide_True by (by left). split; by eexists.
  - apply map_eq. intros k. rewrite !encoded_lookup by done.
    destruct (params !! k) as [x |]; [| done].
    by rewrite !decide_True by (by left).
  - apply map_subseteq_spec. intros k vs. rewrite encoded_lookup by done.
    destruct (params !! k) as [x |] eqn:Hk; [| done].
    case_decide; [| done]. intros [= <-]. by apply Hall.
  - apply map_subseteq_spec. intros k vs. rewrite !encoded_lookup by done.
    destruct (params !! k) as [x |] eqn:Hk; [| done].
    case_decide as H1; [| done]. intros [= <-].
    rewrite decide_True; [done |].
    destruct H1 as [? | [? | ?%elem_of_nil]]; [done | by right; left | done].
  - intros Hin. apply map_eq. intros k. rewrite !encoded_lookup by done.
    destruct (params !! k) as [x |] eqn:Hk; [| done].
    rewrite !decide_True; [done | by left |].
    right; right. apply Hin. by eexists.
Qed.

End EncoderModes.


Lemma ParamsToValues_modes_witness :
  ranges sampleParams (sampleRange _ sampleParams)
  ∧ dom (ParamsToValuesWithAllEmpty sampleRange sampleSprint sampleParams
           ["comment"] true)
    = dom sampleParams
  ∧ ParamsToValuesWithAllEmpty sampleRange sampleSprint sampleParams [] true
    = {[ "force" := ["1"]; "name" := [EmptyString];
         "comment" := [EmptyString]; "vmid" := ["100"] ]}.
Proof.
  split; [apply ranges_map_to_list |]. split.
  - exact (proj1 (ParamsToValues_modes sampleSprint sampleRange sampleParams
             ["comment"] [] (ranges_map_to_list _))).
  - vm_compute. reflexivity.
Defined.

(** ** Login: the Session afterwards, and the form it sends *)

Section LoginOutcomes.

Context {World Conn Opaque : Type}.
Context (range : ∀ A : Type, gmap string A → list (string * A)).
Context (isPrintTable : Z → bool) (urlError : string → string → error → error).
Context (recv : Conn → World → (string + error) * World).
Context (closeConn : Conn → World → World).
Context (Sprint : Opaque → string) (Values_Encode : Header → string).
Context (json_parse : string → JSON + error) (typeError : JSON → string → error).
Context (requestLineError : string → string → option error).
Context (DumpRequestOut : Wire → string).
Context (DumpResponse : @http_Response Conn → string).
Context (fmt_Errorf : string → error) (ParseFloat : string → float).

Local Abbreviation Login' :=
  (Login range isPrintTable urlError recv closeConn Sprint Values_Encode
     json_parse typeError requestLineError DumpRequestOut DumpResponse
     fmt_Errorf ParseFloat).
Local Abbreviation Post' :=
  (Post range isPrintTable urlError recv closeConn Values_Encode
     requestLineError DumpRequestOut DumpResponse fmt_Errorf).

(** Whatever its outcome, [Login] leaves the client, the API URL, the
    token and the reference to the headers of the Session as they were;
    when it returns an error, the ticket and the CSRF token are as they
    were too: a failed login does not drop the credentials of an earlier
    one. *)
Theorem Login_error_keeps_session (s : @Session World Conn)
    (username password otp : string) (st : @Proc World) :
  let '(out, s', _) := Login' s username password otp st in
  httpClient s' = httpClient s ∧ ApiUrl s' = ApiUrl s
  ∧ AuthToken s' = AuthToken s ∧ Headers s' = Headers s
  ∧ ∀ err, out = Returns (Some err) → s' = s.
Proof.
  unfold Login.
  destruct (Post _ _ _ _ _ _ _ _ _ _ _ _ _ _ _ _) as [[resp err] st1].
  destruct err as [err |]; [done |].
  destruct resp as [resp |]; [| done].
  destruct (ResponseJSON _ _ _ _ _) as [[[jbody err] resp'] st2].
  repeat case_match; simplify_eq; simpl; split_and!; try done.
Qed.

(** Once the login request has been answered with a status from 200 to
    299, the body is in memory; when it is a JSON object whose [data] is an
    object, a [NeedTFA] equal to the number 1 makes [Login] return
    [missing TFA code] and leave the Session as it was, even if a ticket
    came with it; otherwise a ticket and a CSRF token that are strings
    become the credentials of the Session and [Login] returns no error. *)
Theorem Login_outcome_on_data (s : @Session World Conn) username password otp
    (st st1 : @Proc World) (resp : http_Response) :
  Post' s "/access/ticket" None (Some (Headers s))
    (Some (loginBody range Sprint Values_Encode username password otp))
    (setDebug false st) = (Some resp, None, st1) →
  ∃ body,
    Body resp = Some (bufferedBody body)
    ∧ ∀ members dat,
        json_parse body = inl (JObject members) →
        member "data" members = Some (JObject dat) →
        (isOne ParseFloat (member "NeedTFA" dat) = true →
         Login' s username password otp st
         = (Returns (Some "missing TFA code"), s, setDebug (Debug st) st1))
        ∧ (isOne ParseFloat (member "NeedTFA" dat) = false →
           ∀ ticket token,
             member "ticket" dat = Some (JString ticket) →
             member "CSRFPreventionToken" dat = Some (JString token) →
             Login' s username password otp st
             = (Returns None, setCsrfToken token (setAuthTicket ticket s),
                setDebug (Debug st) st1)).
Proof.
  intros HPost.
  assert (∃ body, Body resp = Some (bufferedBody body)) as [body HB].
  { unfold Post in HPost.
    pose proof (Request_result range isPrintTable urlError recv closeConn
                  Values_Encode requestLineError DumpRequestOut DumpResponse
                  fmt_Errorf s "POST" "/access/ticket" None (Some (Headers s))
                  (Some (loginBody range Sprint Values_Encode username
                           password otp)) (setDebug false st)) as HR.
    rewrite HPost in HR. by destruct HR as [HR _]. }
  exists body. split; [done |]. intros members dat Hparse Hdata.
  rewrite (Login_on_response range isPrintTable urlError recv closeConn Sprint
             Values_Encode json_parse typeError requestLineError DumpRequestOut
             DumpResponse fmt_Errorf ParseFloat s username password otp st st1
             resp body members HPost HB Hparse).
  rewrite Hdata. simpl. split.
  - by intros ->.
  - intros -> ticket token -> ->. done.
Qed.

(** The form of a login has the user name, the password and the one-time
    password, each under its key and each only when it is not empty: the
    encoder leaves out an empty user name or password as it does an empty
    one-time password, which [Login] does not even put into the map. *)
Theorem Login_form_omits_empty_fields username password otp :
  (∀ m : gmap string (@any Opaque), ranges m (range _ m)) →
  loginBody range Sprint Values_Encode username password otp
  = Values_Encode (loginForm username password otp).
Proof.
  intros Hr. unfold loginBody, ParamsToBody, ParamsToValuesWithEmpty.
  f_equal. apply map_eq. intros k.
  rewrite (encoded_lookup Sprint range) by apply Hr.
  unfold loginForm, formField, specKept.
  assert (∀ v : string,
            (if decide (false = true ∨ v ≠ EmptyString ∨ k ∈ @nil string)
             then Some [v] else None)
            = if String.eqb v EmptyString then None else Some [v]) as Hv.
  { intros v. destruct (String.eqb_spec v EmptyString) as [-> | Hne].
    - rewrite decide_False; [done |].
      intros [? | [? | ?%elem_of_nil]]; done.
    - rewrite decide_True; [done | by right; left]. }
  destruct (String.eqb_spec otp EmptyString) as [-> | Hotp]; simpl.
  - rewrite !lookup_union, lookup_empty.
    destruct (decide (k = "username")) as [-> | H1];
      [| destruct (decide (k = "password")) as [-> | H2]].
    + rewrite lookup_insert_eq. simpl. rewrite Hv.
      destruct (String.eqb username EmptyString), (String.eqb password EmptyString);
        done.
    + rewrite lookup_insert_ne, lookup_singleton_eq by done. simpl. rewrite Hv.
      destruct (String.eqb username EmptyString), (String.eqb password EmptyString);
        done.
    + rewrite lookup_insert_ne, lookup_singleton_ne by done.
      destruct (String.eqb username EmptyString), (String.eqb password EmptyString);
        by rewrite ?lookup_empty, ?lookup_singleton_ne by done.
  - rewrite !lookup_union.
    destruct (decide (k = "otp")) as [-> | H0];
      [| destruct (decide (k = "username")) as [-> | H1];
         [| destruct (decide (k = "password")) as [-> | H2]]].
    + rewrite lookup_insert_eq. simpl. rewrite Hv.
      destruct (String.eqb_spec otp EmptyString) as [? | _]; [done |].
      destruct (String.eqb username EmptyString), (String.eqb password EmptyString);
        by rewrite ?lookup_empty, ?lookup_singleton_eq, ?lookup_singleton_ne by done.
    + rewrite lookup_insert_ne, lookup_insert_eq by done. simpl. rewrite Hv.
      destruct (String.eqb_spec otp EmptyString) as [? | _]; [done |].
      destruct (String.eqb username EmptyString), (String.eqb password EmptyString);
        by rewrite ?lookup_empty, ?lookup_singleton_eq, ?lookup_singleton_ne by done.
    + rewrite !lookup_insert_ne, lookup_singleton_eq by done. simpl. rewrite Hv.
      destruct (String.eqb_spec otp EmptyString) as [? | _]; [done |].
      destruct (String.eqb username EmptyString), (String.eqb password EmptyString);
        by rewrite ?lookup_empty, ?lookup_singleton_eq, ?lookup_singleton_ne by done.
    + rewrite !lookup_insert_ne, lookup_singleton_ne by done.
      destruct (String.eqb_spec otp EmptyString) as [? | _]; [done |].
      destruct (String.eqb username EmptyString), (String.eqb password EmptyString);
        by rewrite ?lookup_empty, ?lookup_singleton_ne by done.
Qed.

End LoginOutcomes.
Lemma Login_outcome_on_data_witness :
  ∃ resp st1,
    Post sampleRange printAll sampleUrlError sampleRecv sampleClose sampleEncode
      anyRequestLine sampleDump sampleDump id loginSample "/access/ticket" None
      (Some (Headers loginSample))
      (Some (loginBody sampleRange sampleSprint sampleEncode
               "root@pam" "secret" EmptyString))
      (setDebug false sampleProc) = (Some resp, None, st1)
    ∧ Login sampleRange printAll sampleUrlError sampleRecv sampleClose
        sampleSprint sampleEncode sampleParse sampleTypeError anyRequestLine
        sampleDump sampleDump id sampleFloat loginSample
        "root@pam" "secret" EmptyString sampleProc
      = (Returns None, setCsrfToken "C" (setAuthTicket "T" loginSample),
         setDebug (Debug sampleProc) st1).
Proof.
  set (P := Post _ _ _ _ _ _ _ _ _ _ _ _ _ _ _ _).
  let v := eval vm_compute in P in
  assert (P = v) as E by (vm_compute; reflexivity).
  lazymatch type of E with
  | _ = (Some ?r, None, ?s1) => exists r, s1
  end.
  split; [exact E |].
  destruct (Login_outcome_on_data sampleRange printAll sampleUrlError
              sampleRecv sampleClose sampleSprint sampleEncode sampleParse
              sampleTypeError anyRequestLine sampleDump sampleDump id
              sampleFloat loginSample "root@pam" "secret" EmptyString
              sampleProc _ _ E) as (body & HB & H).
  injection HB as <-.
  refine (proj2 (H _ _ ltac:(vm_compute; reflexivity) eq_refl) eq_refl
            "T" "C" eq_refl eq_refl).
Defined.

Lemma Login_form_omits_empty_fields_witness :
  (∀ m : gmap string (@any Empty_set), ranges m (sampleRange _ m))
  ∧ loginBody sampleRange sampleSprint keysEncode "root@pam" EmptyString
      EmptyString = "username"
  ∧ loginBody sampleRange sampleSprint keysEncode "root@pam" "secret" "123"
    = "otp&username&password".
Proof.
  split; [intros m; apply ranges_map_to_list |].
  rewrite !(Login_form_omits_empty_fields sampleRange sampleSprint keysEncode
              _ _ _ (λ m, ranges_map_to_list m)).
  split; vm_compute; reflexivity.
Defined.

(** ** SetAPIToken and NewSession *)

Section SessionSetup.

Context {World Conn TLSConfig ProxyURL : Type}.
Implicit Types (st : @Proc World).
Context (http_Transport : TLSConfig → option ProxyURL → @RoundTripFunc World Conn).
Context (url_ParseRequestURI : string → ProxyURL + error).
Context (Host : ProxyURL → string).
Context (net_SplitHostPort : string → option error).
Context (requestLineError : string → string → option error).

Local Abbreviation NewSession' :=
  (NewSession http_Transport url_ParseRequestURI Host net_SplitHostPort).

Lemma append_nonempty (a b : string) : a +:+ "=" +:+ b ≠ EmptyString.
Proof. by destruct a. Qed.

(** After [SetAPIToken], for any user and token, the empty ones included,
    [NewRequest] attaches the token and nothing else: [Authorization] is
    [PVEAPIToken=] with the user, an equals sign and the token, and a ticket
    and CSRF token that the Session has from a login are not used. *)
Theorem SetAPIToken_selects_token_scheme (s : @Session World Conn)
    userID token method url headers body st :
  requestLineError (methodOf method) url = None →
  ∃ req st',
    NewRequest requestLineError (SetAPIToken s userID token) method url
      headers body st = (inl req, st')
    ∧ ReqHeader req = headerRef headers st
    ∧ headerAt (ReqHeader req) st'
      = <["Authorization" := ["PVEAPIToken=" +:+ userID +:+ "=" +:+ token]]>
          (givenHeaders headers st).
Proof.
  intros Hline.
  destruct (NewRequest_built requestLineError (SetAPIToken s userID token)
              method url headers body st Hline) as (st' & Hnew & Hhdr & _).
  eexists _, st'. split; [exact Hnew |]. split; [done |]. simpl.
  rewrite Hhdr. unfold attachAuth, SetAPIToken. simpl.
  destruct (String.eqb_spec (userID +:+ "=" +:+ token) EmptyString) as [He | _];
    [by apply append_nonempty in He | done].
Qed.

(** [NewSession] fails only when it makes the client itself and the proxy
    string is not empty and is not a request URI with a host and a port;
    the error is the one of the parser or of the splitting, and nothing has
    been allocated.  With a client of the caller it never fails, and reads
    neither the proxy string nor the TLS configuration. *)
Theorem NewSession_fails_only_on_proxy apiUrl hclient proxyString tls st :
  let '(result, st') :=
    NewSession http_Transport url_ParseRequestURI Host net_SplitHostPort
      apiUrl hclient proxyString tls st in
  match result with
  | inr err =>
      st' = st ∧ hclient = None ∧ proxyString ≠ EmptyString
      ∧ (url_ParseRequestURI proxyString = inr err
         ∨ ∃ proxyURL, url_ParseRequestURI proxyString = inl proxyURL
                       ∧ net_SplitHostPort (Host proxyURL) = Some err)
  | inl s =>
      (∀ c, hclient = Some c →
         ∀ proxyString' tls',
           NewSession' apiUrl hclient proxyString' tls' st = (inl s, st'))
      ∧ (hclient = None → proxyString ≠ EmptyString →
           ∃ proxyURL, url_ParseRequestURI proxyString = inl proxyURL
                       ∧ net_SplitHostPort (Host proxyURL) = None)
  end.
Proof.
  unfold NewSession.
  destruct hclient as [c |]; simpl.
  - split; [| done]. by intros c' [= <-] proxyString' tls'.
  - destruct (String.eqb_spec proxyString EmptyString) as [-> | Hne]; simpl.
    + split; [done | by intros _ []].
    + destruct (url_ParseRequestURI proxyString) as [proxyURL | err] eqn:Hp.
      * destruct (net_SplitHostPort (Host proxyURL)) as [err |] eqn:Hs; simpl.
        -- split_and!; [done.. |]. right. by exists proxyURL.
        -- split; [done |]. intros _ _. by exists proxyURL.
      * split_and!; [done.. |]. by left.
Qed.

(** A Session that [NewSession] returns has the API URL given, no ticket,
    no CSRF token and no token, and a header map of its own that is new and
    empty; the other header maps are as they were.  So [NewRequest]
    attaches no auth header for it. *)
Theorem NewSession_starts_without_credentials apiUrl hclient proxyString
    tls st s st' :
  NewSession' apiUrl hclient proxyString tls st = (inl s, st') →
  ApiUrl s = apiUrl
  ∧ AuthTicket s = EmptyString ∧ CsrfToken s = EmptyString
  ∧ AuthToken s = EmptyString
  ∧ (Headers s ∉ dom (heap st))
  ∧ headerAt (Headers s) st' = ∅
  ∧ (∀ l, l ≠ Headers s → headerAt l st' = headerAt l st)
  ∧ (∀ h, attachAuth s h = h)
  ∧ Debug st' = Debug st ∧ sent st' = sent st ∧ logged st' = logged st
  ∧ net st' = net st.
Proof.
  unfold NewSession. intros H.
  assert (∃ c, s = {| httpClient := c; ApiUrl := apiUrl;
                      AuthTicket := EmptyString; CsrfToken := EmptyString;
                      AuthToken := EmptyString;
                      Headers := fresh (dom (heap st)) |}
               ∧ st' = setHeap (<[fresh (dom (heap st)) := ∅]> (heap st)) st)
    as (c & -> & ->).
  { unfold newHeader in H. repeat case_match; simplify_eq; by eexists. }
  simpl. split_and!; try done.
  - apply is_fresh.
  - unfold headerAt. simpl. by rewrite lookup_total_insert_eq.
  - intros l Hl. unfold headerAt. simpl. by rewrite lookup_total_insert_ne.
Qed.

End SessionSetup.
Lemma SetAPIToken_selects_token_scheme_witness :
  anyRequestLine (methodOf "GET") "https://pve:8006/api2/json/version" = None
  ∧ ∃ req st',
      NewRequest anyRequestLine
        (SetAPIToken (sampleSession (sampleServer "200 OK" 200 "pong"))
           EmptyString EmptyString)
        "GET" "https://pve:8006/api2/json/version" None None mergeProc
      = (inl req, st')
      ∧ headerAt (ReqHeader req) st' = {[ "Authorization" := ["PVEAPIToken=="] ]}.
Proof.
  split; [reflexivity |].
  destruct (SetAPIToken_selects_token_scheme anyRequestLine
              (sampleSession (sampleServer "200 OK" 200 "pong"))
              EmptyString EmptyString "GET"
              "https://pve:8006/api2/json/version" None None mergeProc eq_refl)
    as (req & st' & Hnew & _ & Hhdr).
  exists req, st'. split; [exact Hnew |]. rewrite Hhdr. reflexivity.
Defined.

Lemma NewSession_starts_without_credentials_witness :
  ∃ s st',
    NewSession sampleTransportOf sampleParseURI sampleHost sampleSplit
      "https://pve:8006/api2/json" None "http://proxy:3128" tt mergeProc
    = (inl s, st')
    ∧ AuthToken s = EmptyString ∧ Headers s = 2%nat
    ∧ headerAt 2%nat st' = ∅.
Proof.
  set (N := NewSession _ _ _ _ _ _ _ _ _).
  let v := eval vm_compute in N in
  assert (N = v) as E by (vm_compute; reflexivity).
  lazymatch type of E with
  | _ = (inl ?s, ?s1) => exists s, s1
  end.
  split; [exact E |].
  pose proof (NewSession_starts_without_credentials sampleTransportOf
                sampleParseURI sampleHost sampleSplit _ _ _ _ _ _ _ E)
    as (_ & _ & _ & Htoken & _ & Hempty & _).
  split; [exact Htoken |]. split; [reflexivity | exact Hempty].
Defined.

(** ** The decoders: absent bodies, the kinds of error, the body afterwards *)

Section DecoderFacts.

Context {World Conn : Type}.
Implicit Types (st : @Proc World).
Context (recv : Conn → World → (string + error) * World).
Context (json_parse : string → JSON + error) (typeError : JSON → string → error).
Context (equalFold : string → string → bool).

Local Abbreviation ResponseJSON' := (ResponseJSON recv json_parse typeError).
Local Abbreviation TypedResponse' :=
  (TypedResponse recv json_parse typeError equalFold).

(** On a response without a body (a nil [Body]) nothing is read:
    [ResponseJSON] returns the nil map and no error, and [TypedResponse]
    fails with the error of the result for an empty input, the destination
    being as it was. *)
Theorem decoders_on_absent_body {T : Type} (store : JSON → T → T * option error)
    (resp : @http_Response Conn) (v : T) st :
  Body resp = None →
  ResponseJSON' resp st = (None, None, resp, st)
  ∧ TypedResponse' store resp v st
    = (v, Some "error unmarshalling result unexpected end of JSON input",
       resp, st).
Proof.
  intros HB. unfold TypedResponse, ResponseJSON, decodeResponse.
  by rewrite HB.
Qed.

(** [TypedResponse] changes nothing of the process but the network it
    reads from.  Its errors are of two kinds: the error of the envelope,
    with which the destination is as it was, and the error of the result;
    without error the destination is what storing some document into it
    gives. *)
Theorem TypedResponse_error_kinds {T : Type}
    (store : JSON → T → T * option error) (resp : @http_Response Conn)
    (v : T) st :
  let '(v', err, _, st') := TypedResponse' store resp v st in
  sameButNet st st'
  ∧ match err with
    | None => ∃ doc, store doc v = (v', None)
    | Some e =>
        (∃ cause, e = "error reading response envelope: " +:+ cause ∧ v' = v)
        ∨ (∃ cause, e = "error unmarshalling result " +:+ cause)
    end.
Proof.
  unfold TypedResponse.
  pose proof (sameButNet_decodeResponse recv json_parse
                (storeIntermediate typeError equalFold) resp None st) as HS.
  destruct (decodeResponse _ _ _ _ _ _) as [[[intermediate err] resp'] st'].
  simpl in HS. destruct err as [err |].
  - split; [done |]. left. by eexists.
  - unfold json_Unmarshal_raw. destruct intermediate as [doc |].
    + destruct (store doc v) as [v' [err |]] eqn:Hstore.
      * split; [done |]. right. by eexists.
      * split; [done |]. by exists doc.
    + split; [done |]. right. by eexists.
Qed.

(** The decoders read the body to its end and do not rewind it.  For a
    body in memory, as [Do] leaves it, [decodeResponse] stores the document
    of the whole text and leaves the process as it was; decoding the
    response that comes back a second time decodes the empty text. *)
Theorem decodeResponse_reads_body_to_end {T : Type}
    (store : JSON → T → T * option error) (resp : @http_Response Conn)
    (v : T) (text : string) st :
  Body resp = Some (bufferedBody text) →
  let '(v', err, resp', st') := decodeResponse recv json_parse store resp v st in
  st' = st
  ∧ (v', err) = json_Unmarshal json_parse store text v
  ∧ Body resp' = Some (bufferedBody EmptyString)
  ∧ ∀ w,
      (decodeResponse recv json_parse store resp' w st').1.1
      = json_Unmarshal json_parse store EmptyString w.
Proof.
  intros HB. unfold decodeResponse at 1. rewrite HB. simpl.
  destruct (json_Unmarshal json_parse store text v) as [v' err].
  split_and!; try done.
  intros w. unfold decodeResponse. simpl.
  by destruct (json_Unmarshal json_parse store EmptyString w).
Qed.

End DecoderFacts.

Lemma decoders_on_absent_body_witness :
  Body {| Status := "204 No Content"; StatusCode := 204;
          Body := @None (@ReadCloser string) |} = None
  ∧ TypedResponse sampleRecv sampleParse sampleTypeError sampleFold storeX
      {| Status := "204 No Content"; StatusCode := 204; Body := None |} 7
      sampleProc
    = (7, Some "error unmarshalling result unexpected end of JSON input",
       {| Status := "204 No Content"; StatusCode := 204; Body := None |},
       sampleProc).
Proof.
  split; [reflexivity |].
  exact (proj2 (decoders_on_absent_body sampleRecv sampleParse sampleTypeError
                  sampleFold storeX
                  {| Status := "204 No Content"; StatusCode := 204;
                     Body := None |} 7 sampleProc eq_refl)).
Defined.

Lemma decodeResponse_reads_body_to_end_witness :
  Body {| Status := "200 OK"; StatusCode := 200;
          Body := Some (@bufferedBody string emptyDataText) |}
  = Some (bufferedBody emptyDataText)
  ∧ ∃ jbody resp',
      ResponseJSON sampleRecv sampleParse sampleTypeError
        {| Status := "200 OK"; StatusCode := 200;
           Body := Some (bufferedBody emptyDataText) |} sampleProc
      = (Some jbody, None, resp', sampleProc)
      ∧ ∃ cause,
          (ResponseJSON sampleRecv sampleParse sampleTypeError resp'
             sampleProc).1.1 = (None, Some cause).
Proof.
  split; [reflexivity |].
  pose proof (decodeResponse_reads_body_to_end sampleRecv sampleParse
                (storeMap sampleTypeError)
                {| Status := "200 OK"; StatusCode := 200;
                   Body := Some (bufferedBody emptyDataText) |} None
                emptyDataText sampleProc eq_refl) as H.
  unfold ResponseJSON.
  destruct (decodeResponse _ _ _ _ _ _) as [[[jbody err] resp'] st'] eqn:E.
  destruct H as (-> & Hdoc & _ & Hsecond).
  vm_compute in Hdoc. injection Hdoc as -> ->.
  eexists _, _. split; [reflexivity |].
  eexists. rewrite Hsecond. vm_compute. reflexivity.
Defined.

(** ** Login: what goes to the network *)

Section LoginRequest.

Context {World Conn Opaque : Type}.
Context (range : ∀ A : Type, gmap string A → list (string * A)).
Context (isPrintTable : Z → bool) (urlError : string → string → error → error).
Context (recv : Conn → World → (string + error) * World).
Context (closeConn : Conn → World → World).
Context (Sprint : Opaque → string) (Values_Encode : Header → string).
Context (json_parse : string → JSON + error) (typeError : JSON → string → error).
Context (requestLineError : string → string → option error).
Context (DumpRequestOut : Wire → string).
Context (DumpResponse : @http_Response Conn → string).
Context (fmt_Errorf : string → error) (ParseFloat : string → float).


End LoginRequest.
